(** * Tab-safe timers: a shallow embedding of the Coordinator and of the
      Background Scheduler, and the properties of the specification.

    The development follows the source file of the package
    ([WORKER_CODE], [class TabSafeTimers], the three exported functions).
    JavaScript values that reach the timer functions are modelled by the
    inductive type [value]; the mutable fields of a [TabSafeTimers] object
    by a record; the host (global object, function objects, capabilities,
    observable effects) by the record [Host]; and every method by a
    computation in a small state-and-exception monad. *)

From Stdlib Require Import ZArith NArith List String Ascii Bool Lia.
From Stdlib Require Import DecimalString DecimalPos Sorted.
Import ListNotations.

Open Scope Z_scope.

(** ** JavaScript values *)

Module Js.

(** *** Numbers

    The only operations the source applies to a delay are [parseInt], which
    reads the decimal text that [Number::toString] prints, the falsy test of
    [||], and [Math.max].  A finite non-zero Number is therefore represented
    by the triple that [Number::toString] is defined on (ECMA-262,
    6.1.6.1.20): its decimal digits [s] (most significant first, [k] of
    them) and the position [n] of the decimal point, the value being
    [s * 10^(n - k)].  Integers are kept exact in [Z]; one above 2^53
    stands for the Number nearest to it. *)

Inductive digit := d0 | d1 | d2 | d3 | d4 | d5 | d6 | d7 | d8 | d9.

Definition digit_N (d : digit) : N :=
  match d with
  | d0 => 0 | d1 => 1 | d2 => 2 | d3 => 3 | d4 => 4
  | d5 => 5 | d6 => 6 | d7 => 7 | d8 => 8 | d9 => 9
  end%N.

Definition digit_char (d : digit) : ascii :=
  match d with
  | d0 => "0" | d1 => "1" | d2 => "2" | d3 => "3" | d4 => "4"
  | d5 => "5" | d6 => "6" | d7 => "7" | d8 => "8" | d9 => "9"
  end%char.

Inductive number :=
| NaN
| Infinity (neg : bool)
| Zero (neg : bool)
| Dec (neg : bool) (s : list digit) (n : Z).

(** The integer written by a sequence of digits. *)
Definition digits_val (s : list digit) : N :=
  fold_left (fun a d => 10 * a + digit_N d)%N s 0%N.

Definition klen (s : list digit) : Z := Z.of_nat (List.length s).

(** The mathematical value of a finite Number, truncated toward zero, as a
    magnitude. *)
Definition trunc_magnitude (s : list digit) (n : Z) : Z :=
  if klen s <=? n
  then Z.of_N (digits_val s) * 10 ^ (n - klen s)
  else Z.of_N (digits_val s) / 10 ^ (klen s - n).

(** [Some z] when the Number is the integer [z] (used for Map keys, which
    are compared by SameValueZero). *)
Definition number_to_Z (x : number) : option Z :=
  match x with
  | NaN | Infinity _ => None
  | Zero _ => Some 0
  | Dec neg s n =>
      let sign := if neg then (-1) else 1 in
      if klen s <=? n
      then Some (sign * (Z.of_N (digits_val s) * 10 ^ (n - klen s)))
      else if Z.of_N (digits_val s) mod 10 ^ (klen s - n) =? 0
           then Some (sign * (Z.of_N (digits_val s) / 10 ^ (klen s - n)))
           else None
  end.

(** The Number that is the integer [z]: its digits without the trailing
    zeros, and the decimal point after all of them. *)
Fixpoint digits_of_uint (u : Decimal.uint) : list digit :=
  match u with
  | Decimal.Nil => []
  | Decimal.D0 r => d0 :: digits_of_uint r
  | Decimal.D1 r => d1 :: digits_of_uint r
  | Decimal.D2 r => d2 :: digits_of_uint r
  | Decimal.D3 r => d3 :: digits_of_uint r
  | Decimal.D4 r => d4 :: digits_of_uint r
  | Decimal.D5 r => d5 :: digits_of_uint r
  | Decimal.D6 r => d6 :: digits_of_uint r
  | Decimal.D7 r => d7 :: digits_of_uint r
  | Decimal.D8 r => d8 :: digits_of_uint r
  | Decimal.D9 r => d9 :: digits_of_uint r
  end.

Fixpoint drop_d0 (s : list digit) : list digit :=
  match s with
  | d0 :: r => drop_d0 r
  | _ => s
  end.

Definition strip_trailing (s : list digit) : list digit :=
  rev (drop_d0 (rev s)).

Definition of_Z (z : Z) : number :=
  match z with
  | Z0 => Zero false
  | Zpos p =>
      let s := digits_of_uint (Pos.to_uint p) in
      Dec false (strip_trailing s) (klen s)
  | Zneg p =>
      let s := digits_of_uint (Pos.to_uint p) in
      Dec true (strip_trailing s) (klen s)
  end.

(** *** Values *)

(** A function object is known by its reference. *)
Definition fref := nat.

Inductive value :=
| VUndefined
| VNull
| VBool (b : bool)
| VNum (x : number)
| VStr (s : string)
| VFun (f : fref).

(** [typeof v === 'function'] *)
Definition is_function (v : value) : bool :=
  match v with VFun _ => true | _ => false end.

(** *** Number::toString, radix 10 *)

Fixpoint string_of_digits (s : list digit) : string :=
  match s with
  | [] => EmptyString
  | d :: r => String (digit_char d) (string_of_digits r)
  end.

Fixpoint zeros (k : nat) : string :=
  match k with
  | O => EmptyString
  | S k' => String "0" (zeros k')
  end.

Definition string_of_N (e : N) : string :=
  NilEmpty.string_of_uint (N.to_uint e).

Definition unsigned_toString (s : list digit) (n : Z) : string :=
  let k := klen s in
  if (-5 <=? n) && (n <=? 21) then
    if k <=? n then
      (string_of_digits s ++ zeros (Z.to_nat (n - k)))%string
    else if 0 <? n then
      (string_of_digits (firstn (Z.to_nat n) s) ++ "." ++
       string_of_digits (skipn (Z.to_nat n) s))%string
    else
      ("0." ++ zeros (Z.to_nat (- n)) ++ string_of_digits s)%string
  else
    let exponentSign := if n <? 0 then "-"%string else "+"%string in
    let e := string_of_N (Z.to_N (Z.abs (n - 1))) in
    match s with
    | [d] => (string_of_digits [d] ++ "e" ++ exponentSign ++ e)%string
    | _ => (string_of_digits (firstn 1 s) ++ "." ++
            string_of_digits (skipn 1 s) ++ "e" ++ exponentSign ++ e)%string
    end.

Definition Number_toString (x : number) : string :=
  match x with
  | NaN => "NaN"
  | Zero _ => "0"
  | Infinity false => "Infinity"
  | Infinity true => "-Infinity"
  | Dec false s n => unsigned_toString s n
  | Dec true s n => String "-" (unsigned_toString s n)
  end%string.

(** *** parseInt, radix absent (ECMA-262, 19.2.5)

    Strings are sequences of code units below 256; the white space of
    that range is TAB, LF, VT, FF, CR, SP and NBSP. *)

Definition is_white (c : ascii) : bool :=
  let n := N_of_ascii c in
  ((9 <=? n) && (n <=? 13) || (n =? 32) || (n =? 160))%N.

Fixpoint trim_start (s : string) : string :=
  match s with
  | String c r => if is_white c then trim_start r else s
  | EmptyString => EmptyString
  end.

Definition digit_of_char (R : N) (c : ascii) : option N :=
  let n := N_of_ascii c in
  let v :=
    if ((48 <=? n) && (n <=? 57))%N then Some (n - 48)%N
    else if ((97 <=? n) && (n <=? 122))%N then Some (n - 87)%N
    else if ((65 <=? n) && (n <=? 90))%N then Some (n - 55)%N
    else None in
  match v with
  | Some d => if (d <? R)%N then Some d else None
  | None => None
  end.

(** The longest prefix of radix-[R] digits. *)
Fixpoint radix_prefix (R : N) (s : string) : list N :=
  match s with
  | String c r =>
      match digit_of_char R c with
      | Some d => d :: radix_prefix R r
      | None => []
      end
  | EmptyString => []
  end.

Definition radix_value (R : N) (ds : list N) : N :=
  fold_left (fun a d => R * a + d)%N ds 0%N.

(** An empty digit prefix is NaN ([None]). *)
Definition parse_radix (R : N) (s : string) : option N :=
  match radix_prefix R s with
  | [] => None
  | ds => Some (radix_value R ds)
  end.

(** After the sign: the prefix [0x] or [0X] selects radix 16 and is
    removed. *)
Definition parse_unsigned (s : string) : option N :=
  match s with
  | String c1 (String c2 r) =>
      if Ascii.eqb c1 "0" && (Ascii.eqb c2 "x" || Ascii.eqb c2 "X")
      then parse_radix 16 r
      else parse_radix 10 s
  | _ => parse_radix 10 s
  end.

(** [None] is NaN; the two zeros are both [Some 0], which the callers
    here do not tell apart.  The integer is the mathematical value of
    the digits: it is the Number [parseInt] returns when its magnitude
    is at most 2^53, and beyond that the Number is the nearest one. *)
Definition parseInt_string (input : string) : option Z :=
  let S := trim_start input in
  match S with
  | String c r =>
      if Ascii.eqb c "-"
      then option_map (fun v => - Z.of_N v) (parse_unsigned r)
      else if Ascii.eqb c "+"
      then option_map Z.of_N (parse_unsigned r)
      else option_map Z.of_N (parse_unsigned S)
  | EmptyString => None
  end.

(** ToString.  A function prints as its source text
    ([Function.prototype.toString]), which the host supplies. *)
Section ToString.
Variable source_text : fref -> string.

Definition ToString (v : value) : string :=
  match v with
  | VUndefined => "undefined"
  | VNull => "null"
  | VBool true => "true"
  | VBool false => "false"
  | VNum x => Number_toString x
  | VStr s => s
  | VFun f => source_text f
  end%string.

Definition parseInt (v : value) : option Z := parseInt_string (ToString v).
End ToString.

(** [r || 0] on a result of [parseInt]: NaN is falsy, and so are the
    zeros. *)
Definition or_zero (r : option Z) : Z :=
  match r with Some z => z | None => 0 end.

(** *** Notions the statements about [parseInt] use *)

(** A character that is no white space, no sign, and not the [x] of a
    hexadecimal prefix. *)
Definition plain (c : ascii) : bool :=
  negb (is_white c) && negb (Ascii.eqb c "-") && negb (Ascii.eqb c "+") &&
  negb (Ascii.eqb c "x") && negb (Ascii.eqb c "X").

Fixpoint all_plain (s : string) : bool :=
  match s with
  | EmptyString => true
  | String c r => plain c && all_plain r
  end.

(** Text that does not begin with a decimal digit, after white space and
    one optional sign, is not a number for [parseInt]. *)
Definition is_decimal (c : ascii) : bool :=
  let n := N_of_ascii c in ((48 <=? n) && (n <=? 57))%N.

Definition head_is_decimal (s : string) : bool :=
  match s with
  | String c _ => is_decimal c
  | EmptyString => false
  end.

Definition begins_with_digit (s : string) : bool :=
  match trim_start s with
  | String c r =>
      if Ascii.eqb c "-" || Ascii.eqb c "+"
      then head_is_decimal r
      else is_decimal c
  | EmptyString => false
  end.

End Js.

(** ** Map objects

    A JavaScript [Map] keeps its entries in insertion order, which is the
    order [keys()] yields them in.  Keys here are integers. *)

Module JsMap.
Section Ops.
Context {V : Type}.

Definition t := list (Z * V).

Definition empty : t := [].

Fixpoint get (m : t) (k : Z) : option V :=
  match m with
  | [] => None
  | (k', v) :: r => if k' =? k then Some v else get r k
  end.

Definition has (m : t) (k : Z) : bool :=
  match get m k with Some _ => true | None => false end.

Fixpoint set (m : t) (k : Z) (v : V) : t :=
  match m with
  | [] => [(k, v)]
  | (k', v') :: r =>
      if k' =? k then (k, v) :: r else (k', v') :: set r k v
  end.

Definition delete (m : t) (k : Z) : t :=
  filter (fun p => negb (fst p =? k)) m.

Definition keys (m : t) : list Z := map fst m.

End Ops.
Arguments t : clear implicits.
End JsMap.

(** ** The host and the Coordinator's state *)

Import Js.

(** The [type] field of a timer entry. *)
Inductive kind := interval | timeout.

(** The [command] field of a request to the worker. *)
Inductive command := SetInterval | SetTimeout | ClearInterval | ClearTimeout.

(** A request [{command, id, delay}]; the two cancellations carry no
    delay. *)
Record request := Request {
  req_command : command;
  req_id : Z;
  req_delay : option Z
}.

(** A message from the worker, [{type, id}]. *)
Record notification := Notification {
  msg_type : string;
  msg_id : Z
}.

Inductive exn :=
| TypeError (msg : string)
| Error (msg : string)
| Raised (v : value).

Inductive outcome (A : Type) :=
| Normal (a : A)
| Abrupt (e : exn).
Arguments Normal {A} a.
Arguments Abrupt {A} e.

(** Where a worker's script comes from. *)
Inductive scriptURL := BlobURL (url : string) | DataURL.

(** What the host lets the rest of the program observe. *)
Inductive event :=
| Construct                                  (* new TabSafeTimers() *)
| Invoke (f : fref) (args : list value)      (* a call of a function object *)
| PostMessage (m : request)                  (* worker.postMessage *)
| ConsoleError (msg : string) (e : exn)      (* console.error *)
| CreateObjectURL (url : string)
| NewWorker (u : scriptURL)
| Terminate (u : scriptURL)                  (* worker.terminate *)
| RevokeObjectURL (url : string).

(** The four timer functions, as slots of [window] or as the [native]
    snapshot. *)
Record TimerFunctions := {
  setInterval : fref;
  setTimeout : fref;
  clearInterval : fref;
  clearTimeout : fref
}.

(** Function objects the model allocates: [f.bind(window)] makes a new
    bound function object, [overrideGlobalTimers] makes four closures.
    Every other function object (host built-ins, callbacks) is opaque. *)
Inductive fobj :=
| Opaque
| Bound (target : fref)
| Override (c : command).

Record Host := {
  has_window : bool;             (* typeof window !== 'undefined' *)
  has_Worker : bool;             (* typeof Worker !== 'undefined' *)
  blob_url : option string;      (* URL.createObjectURL(new Blob(..)), None: it throws *)
  blob_worker : bool;            (* new Worker(blobUrl) succeeds *)
  data_worker : option string;   (* new Worker(dataUrl): None succeeds, Some m throws m *)
  window : TimerFunctions;
  funs : list fobj;              (* function objects, a reference is an index *)
  trace : list event
}.

Record TimerEntry := {
  type : kind;
  callback : fref;
  args : list value;
  delay : Z
}.

Record TabSafeTimers := {
  isInitialized : bool;
  worker : option scriptURL;
  workerUrl : option string;
  callbacks : JsMap.t TimerEntry;
  idCounter : Z;
  native : option TimerFunctions
}.

(** [constructor()] *)
Definition new_TabSafeTimers : TabSafeTimers := {|
  isInitialized := false;
  worker := None;
  workerUrl := None;
  callbacks := JsMap.empty;
  idCounter := 0;
  native := None
|}.

(** ** A state-and-exception monad for the methods *)

Definition M (S A : Type) : Type := S -> outcome A * S.

Definition ret {S A} (a : A) : M S A := fun s => (Normal a, s).

Definition throw {S A} (e : exn) : M S A := fun s => (Abrupt e, s).

Definition bind {S A B} (c : M S A) (k : A -> M S B) : M S B :=
  fun s =>
    match c s with
    | (Normal a, s') => k a s'
    | (Abrupt e, s') => (Abrupt e, s')
    end.

Notation "x <- c ;; k" := (bind c (fun x => k))
  (at level 61, c at next level, right associativity).
Notation "c ;; k" := (bind c (fun _ => k))
  (at level 61, right associativity).

(** [for (const x of xs) body(x)] *)
Fixpoint for_of {S A} (xs : list A) (body : A -> M S unit) : M S unit :=
  match xs with
  | [] => ret tt
  | x :: r => body x ;; for_of r body
  end.

(** The Coordinator object and the host it runs in. *)
Record St := { this : TabSafeTimers; host : Host }.

Definition get_this : M St TabSafeTimers := fun s => (Normal (this s), s).
Definition get_host : M St Host := fun s => (Normal (host s), s).

Definition update_this (f : TabSafeTimers -> TabSafeTimers) : M St unit :=
  fun s => (Normal tt, {| this := f (this s); host := host s |}).
Definition update_host (f : Host -> Host) : M St unit :=
  fun s => (Normal tt, {| this := this s; host := f (host s) |}).

(** Field assignments. *)
Definition with_isInitialized (b : bool) (o : TabSafeTimers) := {|
  isInitialized := b; worker := worker o; workerUrl := workerUrl o;
  callbacks := callbacks o; idCounter := idCounter o; native := native o |}.
Definition with_worker (w : option scriptURL) (o : TabSafeTimers) := {|
  isInitialized := isInitialized o; worker := w; workerUrl := workerUrl o;
  callbacks := callbacks o; idCounter := idCounter o; native := native o |}.
Definition with_workerUrl (u : option string) (o : TabSafeTimers) := {|
  isInitialized := isInitialized o; worker := worker o; workerUrl := u;
  callbacks := callbacks o; idCounter := idCounter o; native := native o |}.
Definition with_callbacks (m : JsMap.t TimerEntry) (o : TabSafeTimers) := {|
  isInitialized := isInitialized o; worker := worker o;
  workerUrl := workerUrl o;
  callbacks := m; idCounter := idCounter o; native := native o |}.
Definition with_idCounter (n : Z) (o : TabSafeTimers) := {|
  isInitialized := isInitialized o; worker := worker o;
  workerUrl := workerUrl o;
  callbacks := callbacks o; idCounter := n; native := native o |}.
Definition with_native (n : option TimerFunctions) (o : TabSafeTimers) := {|
  isInitialized := isInitialized o; worker := worker o;
  workerUrl := workerUrl o;
  callbacks := callbacks o; idCounter := idCounter o; native := n |}.

Definition with_window (w : TimerFunctions) (h : Host) := {|
  has_window := has_window h; has_Worker := has_Worker h;
  blob_url := blob_url h; blob_worker := blob_worker h;
  data_worker := data_worker h;
  window := w; funs := funs h; trace := trace h |}.
Definition with_funs (fs : list fobj) (h : Host) := {|
  has_window := has_window h; has_Worker := has_Worker h;
  blob_url := blob_url h; blob_worker := blob_worker h;
  data_worker := data_worker h;
  window := window h; funs := fs; trace := trace h |}.
Definition with_trace (t : list event) (h : Host) := {|
  has_window := has_window h; has_Worker := has_Worker h;
  blob_url := blob_url h; blob_worker := blob_worker h;
  data_worker := data_worker h;
  window := window h; funs := funs h; trace := t |}.

Definition emit (e : event) : M St unit :=
  update_host (fun h => with_trace (trace h ++ [e]) h).

(** A new function object; its reference is returned. *)
Definition alloc (o : fobj) : M St fref :=
  fun s =>
    (Normal (List.length (funs (host s))),
     {| this := this s;
        host := with_funs (funs (host s) ++ [o]) (host s) |}).

Definition message_not_browser : string :=
  "[TabSafeTimers] Not running in a browser environment or Web Workers not supported".
Definition message_worker_failed : string :=
  "[TabSafeTimers] Failed to create worker: ".
Definition message_callback_error : string :=
  "[TabSafeTimers] Error in timer callback:".
Definition message_worker_error : string :=
  "[TabSafeTimers] Worker error:".
Definition message_not_function : string := "Callback must be a function".
Definition message_init_failed : string :=
  "Failed to initialize TabSafeTimers".
Definition message_null : string :=
  "Cannot read properties of null".

(** ** class TabSafeTimers *)

Section Coordinator.

(** [Function.prototype.toString] of a function object. *)
Variable source_text : fref -> string.

(** What calling an opaque function object does, given what happened
    before the call: it returns a value or throws. *)
Variable callee : fref -> list value -> list event -> outcome value.

(** [f(...args)] for a function that leaves the Coordinator alone while
    it runs: a native timer function, or a callback that does not call
    the timer functions.  The call of a function that may is [invoke],
    further down. *)
Definition call (f : fref) (actual : list value) : M St value :=
  fun s =>
    (callee f actual (trace (host s)),
     {| this := this s;
        host := with_trace (trace (host s) ++ [Invoke f actual])
                           (host s) |}).

(** [this.worker.postMessage(m)] *)
Definition postMessage (m : request) : M St unit :=
  o <- get_this ;;
  match worker o with
  | None => throw (TypeError message_null)
  | Some _ => emit (PostMessage m)
  end.

(** [self.native.f(...)] *)
Definition call_native (f : TimerFunctions -> fref) (actual : list value)
  : M St value :=
  o <- get_this ;;
  match native o with
  | None => throw (TypeError message_null)
  | Some n => call (f n) actual
  end.

(** [Math.max(0, parseInt(delay) || 0)] *)
Definition sanitizeDelay (d : value) : Z :=
  Z.max 0 (or_zero (parseInt source_text d)).

(** The default value of the parameter [delay = 0]. *)
Definition default_delay (d : value) : value :=
  match d with
  | VUndefined => VNum (Zero false)
  | _ => d
  end.

(** The try block of [init] with its fallback. *)
Definition create_worker : M St unit :=
  h <- get_host ;;
  primary <-
    match blob_url h with
    | Some url =>
        emit (CreateObjectURL url) ;;
        update_this (with_workerUrl (Some url)) ;;
        if blob_worker h
        then emit (NewWorker (BlobURL url)) ;;
             update_this (with_worker (Some (BlobURL url))) ;;
             ret true
        else ret false
    | None => ret false
    end ;;
  if primary : bool then ret tt
  else
    match data_worker h with
    | None =>
        emit (NewWorker DataURL) ;;
        update_this (with_worker (Some DataURL))
    | Some m => throw (Error (message_worker_failed ++ m))
    end.

Definition overrideGlobalTimers : M St unit :=
  si <- alloc (Override SetInterval) ;;
  st <- alloc (Override SetTimeout) ;;
  ci <- alloc (Override ClearInterval) ;;
  ct <- alloc (Override ClearTimeout) ;;
  update_host (with_window {| setInterval := si; setTimeout := st;
                              clearInterval := ci; clearTimeout := ct |}).

Definition init : M St bool :=
  o <- get_this ;;
  if isInitialized o then ret false
  else
    h <- get_host ;;
    if negb (has_window h) || negb (has_Worker h)
    then throw (Error message_not_browser)
    else
      si <- alloc (Bound (setInterval (window h))) ;;
      st <- alloc (Bound (setTimeout (window h))) ;;
      ci <- alloc (Bound (clearInterval (window h))) ;;
      ct <- alloc (Bound (clearTimeout (window h))) ;;
      update_this (with_native
        (Some {| setInterval := si; setTimeout := st;
                 clearInterval := ci; clearTimeout := ct |})) ;;
      create_worker ;;
      overrideGlobalTimers ;;
      update_this (with_isInitialized true) ;;
      ret true.

(** The body shared by the two registration overrides after the
    inactive branch: they differ in the entry's type and the command. *)
Definition register (k : kind) (c : command)
           (cb d : value) (rest : list value) : M St value :=
  match cb with
  | VFun f =>
      let sanitizedDelay := sanitizeDelay d in
      o <- get_this ;;
      let id := idCounter o + 1 in
      update_this (with_idCounter id) ;;
      update_this (fun o => with_callbacks
        (JsMap.set (callbacks o) id
           {| type := k; callback := f; args := rest;
              delay := sanitizedDelay |}) o) ;;
      postMessage (Request c id (Some sanitizedDelay)) ;;
      ret (VNum (of_Z id))
  | _ => throw (TypeError message_not_function)
  end.

Definition window_setInterval (cb d : value) (rest : list value)
  : M St value :=
  let d := default_delay d in
  self <- get_this ;;
  if negb (isInitialized self)
  then call_native setInterval (cb :: d :: rest)
  else register interval SetInterval cb d rest.

Definition window_setTimeout (cb d : value) (rest : list value)
  : M St value :=
  let d := default_delay d in
  self <- get_this ;;
  if negb (isInitialized self)
  then call_native setTimeout (cb :: d :: rest)
  else register timeout SetTimeout cb d rest.

(** The key an argument denotes in [callbacks.has(id)], if any: keys
    are integers, and only a Number that is an integer equals one. *)
Definition key_of (id : value) : option Z :=
  match id with
  | VNum x => number_to_Z x
  | _ => None
  end.

(** The body shared by the two cancellation overrides. *)
Definition cancel (c : command) (f : TimerFunctions -> fref) (id : value)
  : M St value :=
  self <- get_this ;;
  if negb (isInitialized self)
  then call_native f [id]
  else
    match key_of id with
    | Some k =>
        if JsMap.has (callbacks self) k
        then
          update_this (fun o => with_callbacks
            (JsMap.delete (callbacks o) k) o) ;;
          postMessage (Request c k None) ;;
          ret VUndefined
        else
          call_native f [id] ;;
          ret VUndefined
    | None =>
        call_native f [id] ;;
        ret VUndefined
    end.

Definition window_clearInterval (id : value) : M St value :=
  cancel ClearInterval clearInterval id.

Definition window_clearTimeout (id : value) : M St value :=
  cancel ClearTimeout clearTimeout id.

(** [this.worker.onmessage], for callbacks that leave the Coordinator
    alone while they run; [onmessage_reentrant], further down, is the
    handler for any callback. *)
Definition onmessage (e : notification) : M St unit :=
  if String.eqb (msg_type e) "tick" then
    o <- get_this ;;
    match JsMap.get (callbacks o) (msg_id e) with
    | Some callbackData =>
        (fun s =>
           match call (callback callbackData) (args callbackData) s with
           | (Normal _, s') => (Normal tt, s')
           | (Abrupt error, s') =>
               emit (ConsoleError message_callback_error error) s'
           end) ;;
        match type callbackData with
        | timeout =>
            update_this (fun o => with_callbacks
              (JsMap.delete (callbacks o) (msg_id e)) o)
        | interval => ret tt
        end
    | None => ret tt
    end
  else ret tt.

(** [this.worker.onerror] *)
Definition onerror (error : exn) : M St unit :=
  emit (ConsoleError message_worker_error error).

Definition destroy : M St unit :=
  o <- get_this ;;
  if negb (isInitialized o) then ret tt
  else
    match native o with
    | Some n => update_host (with_window n)
    | None => ret tt
    end ;;
    for_of (JsMap.keys (callbacks o))
           (fun id => postMessage (Request ClearInterval id None)) ;;
    update_this (with_callbacks JsMap.empty) ;;
    match worker o with
    | Some w =>
        emit (Terminate w) ;;
        update_this (with_worker None)
    | None => ret tt
    end ;;
    match workerUrl o with
    | Some u =>
        emit (RevokeObjectURL u) ;;
        update_this (with_workerUrl None)
    | None => ret tt
    end ;;
    update_this (with_isInitialized false).

End Coordinator.

(** ** What happens between activation and deactivation

    The program calls the four global functions, and the worker delivers
    notifications and faults.  An exception of a call unwinds to the
    caller; the Coordinator stays as the call left it. *)

Inductive action :=
| CallSetInterval (cb d : value) (rest : list value)
| CallSetTimeout (cb d : value) (rest : list value)
| CallClearInterval (id : value)
| CallClearTimeout (id : value)
| Notify (e : notification)
| WorkerFault (error : exn).

Section Run.
Variable source_text : fref -> string.
Variable callee : fref -> list value -> list event -> outcome value.

Definition perform (a : action) (s : St) : St :=
  match a with
  | CallSetInterval cb d rest =>
      snd (window_setInterval source_text callee cb d rest s)
  | CallSetTimeout cb d rest =>
      snd (window_setTimeout source_text callee cb d rest s)
  | CallClearInterval id => snd (window_clearInterval callee id s)
  | CallClearTimeout id => snd (window_clearTimeout callee id s)
  | Notify e => snd (onmessage callee e s)
  | WorkerFault error => snd (onerror error s)
  end.

Definition run (l : list action) (s : St) : St :=
  fold_left (fun s a => perform a s) l s.

End Run.

(** ** Callbacks that call the timer functions

    A callback is any function: [setInterval(clearInterval, 100, id)]
    makes an override the callback of a timer, and the body of a user
    function may register and cancel timers, or deactivate the
    Coordinator, before it returns or throws.  The handler calls it in
    the middle of its own run, so what the callback does to the
    Coordinator is there when the handler goes on. *)

(** What the body of a function does with the Coordinator while it
    runs: it calls one of the four overrides with some arguments, or
    [destroy()], or [init()]. *)
Inductive reentry :=
| Reenter (c : command) (actual : list value)
| Deactivate
| Activate.

(** The argument at a position; a missing one is [undefined]. *)
Definition positional (i : nat) (actual : list value) : value :=
  nth i actual VUndefined.

Section Reentrant.
Variable source_text : fref -> string.
Variable callee : fref -> list value -> list event -> outcome value.

(** What the body of a function of the program does with the
    Coordinator when it is called, given what happened before the call:
    its calls of the overrides and of the two methods, in order (it
    reaches the Coordinator through these only).  An exception of one
    of them is the body's own affair; how the function ends is what
    [callee] says. *)
Variable script : fref -> list value -> list event -> list reentry.

(** One of the four closures of [overrideGlobalTimers] called with the
    arguments [actual]: [(callback, delay = 0, ...args)] for the two
    registrations, [(id)] for the two cancellations. *)
Definition apply_override (c : command) (actual : list value) : M St value :=
  match c with
  | SetInterval =>
      window_setInterval source_text callee
        (positional 0 actual) (positional 1 actual) (skipn 2 actual)
  | SetTimeout =>
      window_setTimeout source_text callee
        (positional 0 actual) (positional 1 actual) (skipn 2 actual)
  | ClearInterval => window_clearInterval callee (positional 0 actual)
  | ClearTimeout => window_clearTimeout callee (positional 0 actual)
  end.

Definition reenter (r : reentry) (s : St) : St :=
  match r with
  | Reenter c actual => snd (apply_override c actual s)
  | Deactivate => snd (destroy s)
  | Activate => snd (init s)
  end.

Definition run_script (l : list reentry) (s : St) : St :=
  fold_left (fun s r => reenter r s) l s.

(** [f(...args)] for any function object.  The function objects
    [Override c] of the heap are taken to be the closures of this
    Coordinator: calling one runs the override.  A bound function object
    is a native timer function bound to [window]: as in [call_native],
    it leaves the Coordinator alone.  Any other function object is a
    function of the program: its body does to the Coordinator what
    [script] says, and it returns or throws as [callee] says. *)
Definition invoke (f : fref) (actual : list value) : M St value :=
  fun s =>
    let called :=
      {| this := this s;
         host := with_trace (trace (host s) ++ [Invoke f actual])
                            (host s) |} in
    match nth_error (funs (host s)) f with
    | Some (Override c) => apply_override c actual called
    | Some (Bound _) => (callee f actual (trace (host s)), called)
    | _ =>
        (callee f actual (trace (host s)),
         run_script (script f actual (trace (host s))) called)
    end.

(** [this.worker.onmessage] *)
Definition onmessage_reentrant (e : notification) : M St unit :=
  if String.eqb (msg_type e) "tick" then
    o <- get_this ;;
    match JsMap.get (callbacks o) (msg_id e) with
    | Some callbackData =>
        (fun s =>
           match invoke (callback callbackData) (args callbackData) s with
           | (Normal _, s') => (Normal tt, s')
           | (Abrupt error, s') =>
               emit (ConsoleError message_callback_error error) s'
           end) ;;
        match type callbackData with
        | timeout =>
            update_this (fun o => with_callbacks
              (JsMap.delete (callbacks o) (msg_id e)) o)
        | interval => ret tt
        end
    | None => ret tt
    end
  else ret tt.


End Reentrant.

(** ** The module: the singleton and the three exported functions *)

(** The module-level variable [instance], and the host. *)
Record ModuleSt := { instance : option TabSafeTimers; mhost : Host }.

Section Exports.

(** Run a method of the object [instance] refers to; the object is
    shared, so [instance] sees what the method did to it, also when
    the method throws. *)
Definition on_instance {A} (o : TabSafeTimers) (c : M St A) : M ModuleSt A :=
  fun m =>
    match c {| this := o; host := mhost m |} with
    | (r, s) => (r, {| instance := Some (this s); mhost := host s |})
    end.

Definition set_instance (i : option TabSafeTimers) : M ModuleSt unit :=
  fun m => (Normal tt, {| instance := i; mhost := mhost m |}).

Definition get_instance : M ModuleSt (option TabSafeTimers) :=
  fun m => (Normal (instance m), m).

Definition emit_module (e : event) : M ModuleSt unit :=
  fun m => (Normal tt,
            {| instance := instance m;
               mhost := with_trace (trace (mhost m) ++ [e]) (mhost m) |}).

(** It returns the value of [instance], an object or [null]. *)
Definition initTabSafeTimers : M ModuleSt (option TabSafeTimers) :=
  i <- get_instance ;;
  match i with
  | Some _ => ret i
  | None =>
      emit_module Construct ;;
      set_instance (Some new_TabSafeTimers) ;;
      success <- on_instance new_TabSafeTimers init ;;
      if negb success
      then set_instance None ;; throw (Error message_init_failed)
      else get_instance
  end.

Definition destroyTabSafeTimers : M ModuleSt unit :=
  i <- get_instance ;;
  match i with
  | Some o => on_instance o destroy ;; set_instance None
  | None => ret tt
  end.

Definition getTabSafeTimers : M ModuleSt (option TabSafeTimers) :=
  get_instance.

End Exports.

(** ** WORKER_CODE: the Background Scheduler *)

Module Worker.

(** A timer armed with the worker's own [self.setInterval] or
    [self.setTimeout]: its handle, what it is, and the id it posts. *)
Record armed_timer := {
  handle : Z;
  timer_kind : kind;
  timer_id : Z;
  timer_delay : option Z
}.

Record state := {
  intervalMap : JsMap.t Z;
  timeoutMap : JsMap.t Z;
  next_handle : Z;             (* handles are positive and increase *)
  armed : list armed_timer;
  posted : list notification   (* self.postMessage *)
}.

Definition start : state := {|
  intervalMap := JsMap.empty;
  timeoutMap := JsMap.empty;
  next_handle := 1;
  armed := [];
  posted := []
|}.

(** [self.clearInterval(h)] and [self.clearTimeout(h)]: one pool of
    handles. *)
Definition disarm (h : Z) (ts : list armed_timer) : list armed_timer :=
  filter (fun t => negb (handle t =? h)) ts.

(** [if (h)] on a handle. *)
Definition truthy (h : Z) : bool := negb (h =? 0).

(** [self.onmessage] *)
Definition onmessage (e : request) (w : state) : state :=
  let id := req_id e in
  match req_command e with
  | SetInterval =>
      let intervalId := next_handle w in
      {| intervalMap := JsMap.set (intervalMap w) id intervalId;
         timeoutMap := timeoutMap w;
         next_handle := next_handle w + 1;
         armed := armed w ++
           [{| handle := intervalId; timer_kind := interval;
               timer_id := id; timer_delay := req_delay e |}];
         posted := posted w |}
  | SetTimeout =>
      let timeoutId := next_handle w in
      {| intervalMap := intervalMap w;
         timeoutMap := JsMap.set (timeoutMap w) id timeoutId;
         next_handle := next_handle w + 1;
         armed := armed w ++
           [{| handle := timeoutId; timer_kind := timeout;
               timer_id := id; timer_delay := req_delay e |}];
         posted := posted w |}
  | ClearInterval =>
      match JsMap.get (intervalMap w) id with
      | Some intervalId =>
          if truthy intervalId then
            {| intervalMap := JsMap.delete (intervalMap w) id;
               timeoutMap := timeoutMap w;
               next_handle := next_handle w;
               armed := disarm intervalId (armed w);
               posted := posted w |}
          else w
      | None => w
      end
  | ClearTimeout =>
      match JsMap.get (timeoutMap w) id with
      | Some timeoutId =>
          if truthy timeoutId then
            {| intervalMap := intervalMap w;
               timeoutMap := JsMap.delete (timeoutMap w) id;
               next_handle := next_handle w;
               armed := disarm timeoutId (armed w);
               posted := posted w |}
          else w
      | None => w
      end
  end.

(** The native timer with handle [h] expires, if it is armed: the arrow
    function given to [self.setInterval] or [self.setTimeout] runs, and
    a one-shot timer is spent. *)
Definition fire (h : Z) (w : state) : state :=
  match find (fun t => handle t =? h) (armed w) with
  | None => w
  | Some t =>
      let tick := {| msg_type := "tick"; msg_id := timer_id t |} in
      match timer_kind t with
      | interval =>
          {| intervalMap := intervalMap w;
             timeoutMap := timeoutMap w;
             next_handle := next_handle w;
             armed := armed w;
             posted := posted w ++ [tick] |}
      | timeout =>
          {| intervalMap := intervalMap w;
             timeoutMap := JsMap.delete (timeoutMap w) (timer_id t);
             next_handle := next_handle w;
             armed := disarm h (armed w);
             posted := posted w ++ [tick] |}
      end
  end.

(** The requests are processed in the order they were posted. *)
Definition process (es : list request) (w : state) : state :=
  fold_left (fun w e => onmessage e w) es w.

End Worker.

(** The requests a trace shows were posted to the worker, in order. *)
Fixpoint posted_requests (t : list event) : list request :=
  match t with
  | [] => []
  | PostMessage m :: r => m :: posted_requests r
  | _ :: r => posted_requests r
  end.

(** The calls of function objects a trace shows, in order. *)
Fixpoint invocations (t : list event) : list (fref * list value) :=
  match t with
  | [] => []
  | Invoke f a :: r => (f, a) :: invocations r
  | _ :: r => invocations r
  end.

(** ** Notions the statements use *)

(** What a successful [init] establishes and every override and handler
    keeps: the flag is set, the worker exists and the snapshot is taken. *)
Definition active (o : TabSafeTimers) : bool :=
  isInitialized o &&
  match worker o with Some _ => true | None => false end &&
  match native o with Some _ => true | None => false end.

(** A host in which [init] succeeds. *)
Definition capable (h : Host) : bool :=
  has_window h && has_Worker h &&
  (match blob_url h with Some _ => blob_worker h | None => false end
   || match data_worker h with None => true | Some _ => false end).

(** A fired notification for [id]. *)
Definition tick (id : Z) : notification :=
  {| msg_type := "tick"; msg_id := id |}.

Section Effects.
Variable source_text : fref -> string.
Variable callee : fref -> list value -> list event -> outcome value.

(** What a registration does to an Active Coordinator. *)
Definition registered (k : kind) (c : command) (f : fref) (d : value)
           (rest : list value) (s : St) : St :=
  let id := idCounter (this s) + 1 in
  {| this := with_callbacks
       (JsMap.set (callbacks (this s)) id
          {| type := k; callback := f; args := rest;
             delay := sanitizeDelay source_text d |})
       (with_idCounter id (this s));
     host := with_trace
       (trace (host s) ++
          [PostMessage (Request c id (Some (sanitizeDelay source_text d)))])
       (host s) |}.


(** What a cancellation does to an id that is in the mapping. *)
Definition cancelled (c : command) (k : Z) (s : St) : St :=
  {| this := with_callbacks (JsMap.delete (callbacks (this s)) k) (this s);
     host := with_trace
       (trace (host s) ++ [PostMessage (Request c k None)]) (host s) |}.

(** What the fallback to a native function does to the state. *)
Definition fell_back (f : fref) (id : value) (s : St) : St :=
  {| this := this s;
     host := with_trace (trace (host s) ++ [Invoke f [id]]) (host s) |}.

(** The snapshot [init] takes in a host with [k] function objects: four
    new bound function objects. *)
Definition snapshot (k : nat) : TimerFunctions :=
  {| setInterval := k; setTimeout := k + 1;
     clearInterval := k + 2; clearTimeout := k + 3 |}%nat.

(** The four closures [overrideGlobalTimers] installs after them. *)
Definition overrides (k : nat) : TimerFunctions :=
  {| setInterval := k + 4; setTimeout := k + 5;
     clearInterval := k + 6; clearTimeout := k + 7 |}%nat.

(** What no override and no handler touches: the lifecycle fields of
    the Coordinator and everything of the host but the trace. *)
Definition same_frame (s s' : St) : Prop :=
  isInitialized (this s') = isInitialized (this s) /\
  worker (this s') = worker (this s) /\
  workerUrl (this s') = workerUrl (this s) /\
  native (this s') = native (this s) /\
  window (host s') = window (host s) /\
  funs (host s') = funs (host s).

(** The messages the loop of [destroy] posts. *)
Definition cancellations (ids : list Z) : list event :=
  map (fun id => PostMessage (Request ClearInterval id None)) ids.

(** The state [destroy] leaves an initialized Coordinator in. *)
Definition destroyed (s : St) : St :=
  let o := this s in
  {| this :=
       {| isInitialized := false; worker := None; workerUrl := None;
          callbacks := JsMap.empty; idCounter := idCounter o;
          native := native o |};
     host :=
       let h := match native o with
                | Some n => with_window n (host s)
                | None => host s
                end in
       with_trace
         (trace (host s) ++ cancellations (JsMap.keys (callbacks o)) ++
          match worker o with Some w => [Terminate w] | None => [] end ++
          match workerUrl o with
          | Some u => [RevokeObjectURL u]
          | None => []
          end) h |}.

End Effects.

(** ** Notions for callbacks that call the timer functions *)






(** ** Further notions: what the Coordinator keeps between calls *)

(** The command that arms a timer of a kind. *)
Definition start_command (k : kind) : command :=
  match k with
  | interval => SetInterval
  | timeout => SetTimeout
  end.

(** The override that registers a timer of a kind. *)
Definition window_start (source_text : fref -> string)
           (callee : fref -> list value -> list event -> outcome value)
           (k : kind) : value -> value -> list value -> M St value :=
  match k with
  | interval => window_setInterval source_text callee
  | timeout => window_setTimeout source_text callee
  end.

(** The ids of the mapping are the ones handed out so far, in the order
    they were handed out. *)
Definition ids_in_order (o : TabSafeTimers) : Prop :=
  0 <= idCounter o /\
  StronglySorted Z.lt (JsMap.keys (callbacks o)) /\
  Forall (fun k => 0 < k <= idCounter o) (JsMap.keys (callbacks o)).



(** ** Further notions: what the worker keeps between messages *)

Module WorkerRun.
Import Worker.

(** What happens to the worker: a request arrives, or one of its
    native timers expires. *)
Inductive input :=
| Receive (e : request)
| Expire (h : Z).

Definition step (i : input) (w : state) : state :=
  match i with
  | Receive e => onmessage e w
  | Expire h => fire h w
  end.

Definition run (l : list input) (w : state) : state :=
  fold_left (fun w i => step i w) l w.

(** The handle [h] is the one of an armed timer of kind [k] that posts
    [id]. *)
Definition points_to (k : kind) (id h : Z) (w : state) : Prop :=
  exists t, In t (armed w) /\ handle t = h /\ timer_id t = id /\
            timer_kind t = k.

(** Handles are positive, below the next one and distinct, and every
    entry of the two mappings holds the handle of an armed timer of its
    kind and id. *)
Definition wf (w : state) : Prop :=
  0 < next_handle w /\
  StronglySorted Z.lt (map handle (armed w)) /\
  Forall (fun t => 0 < handle t < next_handle w) (armed w) /\
  (forall id h, JsMap.get (intervalMap w) id = Some h ->
                points_to interval id h w) /\
  (forall id h, JsMap.get (timeoutMap w) id = Some h ->
                points_to timeout id h w).

End WorkerRun.

(** ** Further notions: strings as delays *)

(** A string of white space only. *)
Fixpoint all_white (s : string) : bool :=
  match s with
  | EmptyString => true
  | String c r => is_white c && all_white r
  end.

(** Text at which a decimal integer read by [parseInt] ends: it is
    empty, or begins with a character that is no decimal digit (and not
    the [x] that would make a hexadecimal prefix of a leading 0). *)
Definition ends_integer (t : string) : bool :=
  match t with
  | EmptyString => true
  | String c _ =>
      negb (is_decimal c) && negb (Ascii.eqb c "x") && negb (Ascii.eqb c "X")
  end.

(** ** A concrete host

    A browser whose four native timer functions are the function objects
    0 to 3, used to run the model on concrete inputs. *)

Module Example.

Definition browser : Host := {|
  has_window := true;
  has_Worker := true;
  blob_url := Some "blob:mock-url"%string;
  blob_worker := true;
  data_worker := None;
  window := {| setInterval := 0%nat; setTimeout := 1%nat;
               clearInterval := 2%nat; clearTimeout := 3%nat |};
  funs := [Opaque; Opaque; Opaque; Opaque];
  trace := []
|}.

(** The same host without the [Worker] constructor. *)
Definition no_Worker : Host := {|
  has_window := true;
  has_Worker := false;
  blob_url := Some "blob:mock-url"%string;
  blob_worker := true;
  data_worker := None;
  window := window browser;
  funs := funs browser;
  trace := []
|}.

Definition source_text (f : fref) : string := "function () {}"%string.

(** Every call returns [undefined]. *)
Definition quiet (f : fref) (actual : list value) (t : list event)
  : outcome value := Normal VUndefined.

(** The function object 101 throws, every other call returns. *)
Definition faulty (f : fref) (actual : list value) (t : list event)
  : outcome value :=
  if Nat.eqb f 101 then Abrupt (Raised (VStr "Callback error"))
  else Normal VUndefined.

(** The Coordinator right after [new TabSafeTimers().init()]. *)
Definition fresh : St :=
  snd (init {| this := new_TabSafeTimers; host := browser |}).

(** Two user functions. *)
Definition cb : fref := 100%nat.
Definition cb' : fref := 101%nat.

(** The Number 100, and the Number 1 as an argument of a cancellation. *)
Definition hundred : value := VNum (of_Z 100).
Definition one : value := VNum (of_Z 1).

(** The fresh Coordinator after [setTimeout(cb', 100)], which gets id 1,
    and [setInterval(cb, 100, "x")], which gets id 2. *)
Definition two_timers : St :=
  snd (window_setInterval source_text faulty (VFun cb) hundred [VStr "x"]
    (snd (window_setTimeout source_text faulty (VFun cb') hundred []
            fresh))).

(** The fresh Coordinator after [setInterval(cb, 100)], and after
    [setTimeout(cb, 100)]. *)
Definition one_interval : St :=
  snd (window_setInterval source_text quiet (VFun cb) hundred [] fresh).
Definition one_timeout : St :=
  snd (window_setTimeout source_text quiet (VFun cb) hundred [] fresh).

(** A host whose policy refuses workers from blob URLs: the object URL
    is made, [new Worker(blobUrl)] throws, the data URL works. *)
Definition strict_csp : Host := {|
  has_window := true;
  has_Worker := true;
  blob_url := Some "blob:mock-url"%string;
  blob_worker := false;
  data_worker := None;
  window := window browser;
  funs := funs browser;
  trace := []
|}.

(** A host in which no worker can be made at all. *)
Definition no_worker_at_all : Host := {|
  has_window := true;
  has_Worker := true;
  blob_url := Some "blob:mock-url"%string;
  blob_worker := false;
  data_worker := Some "SecurityError"%string;
  window := window browser;
  funs := funs browser;
  trace := []
|}.





End Example.

(** * Properties *)

(** ** Map objects *)

Module JsMapFacts.
Section Facts.
Context {V : Type}.
Implicit Types (m : JsMap.t V) (k : Z) (v : V).

Lemma get_set_same m k v : JsMap.get (JsMap.set m k v) k = Some v.
Proof.
  induction m as [|[k' v'] r IH]; simpl.
  - now rewrite Z.eqb_refl.
  - destruct (k' =? k) eqn:E; simpl.
    + now rewrite Z.eqb_refl.
    + now rewrite E.
Qed.

Lemma get_set_other m k k' v :
  k' <> k -> JsMap.get (JsMap.set m k v) k' = JsMap.get m k'.
Proof.
  intros Hne. induction m as [|[k0 v0] r IH]; simpl.
  - destruct (k =? k') eqn:E; [apply Z.eqb_eq in E; congruence | easy].
  - destruct (k0 =? k) eqn:E; simpl.
    + apply Z.eqb_eq in E. subst k0.
      destruct (k =? k') eqn:E'; [apply Z.eqb_eq in E'; congruence | easy].
    + now rewrite IH.
Qed.

Lemma get_delete_same m k : JsMap.get (JsMap.delete m k) k = None.
Proof.
  induction m as [|[k' v'] r IH]; simpl; [easy|].
  destruct (k' =? k) eqn:E; simpl; [easy|]. now rewrite E.
Qed.

Lemma get_delete_other m k k' :
  k' <> k -> JsMap.get (JsMap.delete m k) k' = JsMap.get m k'.
Proof.
  intros Hne. induction m as [|[k0 v0] r IH]; simpl; [easy|].
  destruct (k0 =? k) eqn:E; simpl.
  - apply Z.eqb_eq in E. subst k0.
    destruct (k =? k') eqn:E'; [apply Z.eqb_eq in E'; congruence | easy].
  - now rewrite IH.
Qed.

Lemma has_get m k : JsMap.has m k = true <-> exists v, JsMap.get m k = Some v.
Proof.
  unfold JsMap.has. destruct (JsMap.get m k) as [v|].
  - split; [eauto | easy].
  - split; [easy | intros [v Hv]; easy].
Qed.

Lemma has_false_get m k : JsMap.has m k = false <-> JsMap.get m k = None.
Proof. unfold JsMap.has. destruct (JsMap.get m k); split; easy. Qed.

End Facts.
End JsMapFacts.

(** ** Number::toString and parseInt *)

Module JsFacts.
Import Js.

Lemma digit_of_digit_char d : digit_of_char 10 (digit_char d) = Some (digit_N d).
Proof. destruct d; reflexivity. Qed.

Lemma all_plain_app s t :
  all_plain (s ++ t) = all_plain s && all_plain t.
Proof.
  induction s as [|c s IH]; simpl; [reflexivity|].
  now rewrite IH, andb_assoc.
Qed.

Lemma all_plain_digits s : all_plain (string_of_digits s) = true.
Proof.
  induction s as [|d s IH]; simpl; [reflexivity|].
  rewrite IH. now destruct d.
Qed.

Lemma all_plain_zeros k : all_plain (zeros k) = true.
Proof. induction k as [|k IH]; simpl; [reflexivity | now rewrite IH]. Qed.

Lemma plain_inv c :
  plain c = true ->
  is_white c = false /\ Ascii.eqb c "-" = false /\
  Ascii.eqb c "+" = false /\ Ascii.eqb c "x" = false /\
  Ascii.eqb c "X" = false.
Proof.
  unfold plain.
  destruct (is_white c), (Ascii.eqb c "-"), (Ascii.eqb c "+"),
    (Ascii.eqb c "x"), (Ascii.eqb c "X"); simpl; intros; try discriminate;
    repeat split.
Qed.

(** On a string of plain characters [parseInt] is the decimal parse. *)
Lemma parseInt_plain s :
  all_plain s = true ->
  parseInt_string s = option_map Z.of_N (parse_radix 10 s).
Proof.
  intros Hp. unfold parseInt_string.
  destruct s as [|c1 r]; [reflexivity|].
  simpl in Hp. apply andb_prop in Hp. destruct Hp as [Hc1 Hr].
  destruct (plain_inv _ Hc1) as (W1 & M1 & P1 & _ & _).
  cbn [trim_start]. rewrite W1, M1, P1.
  unfold parse_unsigned.
  destruct r as [|c2 r']; [reflexivity|].
  simpl in Hr. apply andb_prop in Hr. destruct Hr as [Hc2 _].
  destruct (plain_inv _ Hc2) as (_ & _ & _ & X1 & X2).
  now rewrite X1, X2, andb_false_r.
Qed.

(** The digit prefix of what [Number::toString] prints. *)
Lemma radix_prefix_digits s t :
  radix_prefix 10 (string_of_digits s ++ t) =
  map digit_N s ++ radix_prefix 10 t.
Proof.
  induction s as [|d s IH]; [reflexivity|].
  cbn [string_of_digits String.append radix_prefix].
  rewrite digit_of_digit_char, IH. reflexivity.
Qed.

Lemma radix_prefix_zeros k t :
  radix_prefix 10 (zeros k ++ t) = repeat 0%N k ++ radix_prefix 10 t.
Proof.
  induction k as [|k IH]; [reflexivity|].
  cbn [zeros String.append radix_prefix repeat].
  change (digit_of_char 10 "0") with (Some 0%N). cbv iota. now rewrite IH.
Qed.

Lemma fold_digits_map s a :
  fold_left (fun a d => 10 * a + d)%N (map digit_N s) a =
  fold_left (fun a d => 10 * a + digit_N d)%N s a.
Proof. revert a. induction s as [|d s IH]; intros a; simpl; auto. Qed.

Lemma radix_value_digits s : radix_value 10 (map digit_N s) = digits_val s.
Proof. apply fold_digits_map. Qed.

Lemma fold_radix_app l l' a :
  fold_left (fun a d => 10 * a + d)%N (l ++ l') a =
  fold_left (fun a d => 10 * a + d)%N l'
            (fold_left (fun a d => 10 * a + d)%N l a).
Proof. apply fold_left_app. Qed.

Lemma fold_radix_zeros k a :
  fold_left (fun a d => 10 * a + d)%N (repeat 0%N k) a =
  (a * 10 ^ N.of_nat k)%N.
Proof.
  revert a. induction k as [|k IH]; intros a.
  - simpl. lia.
  - cbn [repeat fold_left]. rewrite IH.
    rewrite Nat2N.inj_succ, N.pow_succ_r'. lia.
Qed.

(** Digits and their value. *)
Lemma digits_val_acc s a :
  fold_left (fun a d => 10 * a + digit_N d)%N s a =
  (a * 10 ^ N.of_nat (List.length s) + digits_val s)%N.
Proof.
  unfold digits_val. revert a.
  induction s as [|d s IH]; intros a.
  - simpl. lia.
  - cbn [fold_left List.length]. rewrite IH, (IH (10 * 0 + digit_N d)%N).
    rewrite Nat2N.inj_succ, N.pow_succ_r'. lia.
Qed.

Lemma digits_val_app s t :
  digits_val (s ++ t) =
  (digits_val s * 10 ^ N.of_nat (List.length t) + digits_val t)%N.
Proof.
  unfold digits_val at 1. rewrite fold_left_app.
  fold (digits_val s). apply digits_val_acc.
Qed.

Lemma digits_val_bound s : (digits_val s < 10 ^ N.of_nat (List.length s))%N.
Proof.
  induction s as [|d s IH] using rev_ind.
  - reflexivity.
  - rewrite digits_val_app, length_app.
    cbn [List.length]. rewrite Nat2N.inj_add, N.pow_add_r.
    change (N.of_nat 1) with 1%N. rewrite N.pow_1_r.
    assert (Hd : (digits_val [d] < 10)%N) by (destruct d; reflexivity).
    nia.
Qed.

Lemma digits_val_firstn s m :
  (m <= List.length s)%nat ->
  digits_val (firstn m s) =
  (digits_val s / 10 ^ N.of_nat (List.length s - m))%N.
Proof.
  intros Hm.
  pose proof (digits_val_app (firstn m s) (skipn m s)) as E.
  rewrite firstn_skipn, length_skipn in E.
  pose proof (digits_val_bound (skipn m s)) as Hb.
  rewrite length_skipn in Hb.
  apply N.div_unique with (r := digits_val (skipn m s)); [exact Hb | lia].
Qed.

Lemma radix_prefix_only_zeros k : radix_prefix 10 (zeros k) = repeat 0%N k.
Proof.
  induction k as [|k IH]; [reflexivity|].
  cbn [zeros radix_prefix repeat].
  change (digit_of_char 10 "0") with (Some 0%N). cbv iota. now rewrite IH.
Qed.

Lemma or_zero_parse_radix R s :
  or_zero (option_map Z.of_N (parse_radix R s)) =
  Z.of_N (radix_value R (radix_prefix R s)).
Proof.
  unfold parse_radix. destruct (radix_prefix R s); reflexivity.
Qed.

(** What [parseInt] reads in the text of a non-negative Number that
    is printed without exponent: the Number truncated. *)
Lemma parseInt_in_range s n :
  -5 <= n <= 21 ->
  or_zero (parseInt_string (unsigned_toString s n)) = trunc_magnitude s n.
Proof.
  intros Hn. unfold unsigned_toString, trunc_magnitude.
  replace ((-5 <=? n) && (n <=? 21)) with true
    by (symmetry; apply andb_true_iff; split; apply Z.leb_le; lia).
  unfold klen.
  destruct (Z.leb_spec (Z.of_nat (List.length s)) n) as [Hk|Hk].
  - (* the digits, then zeros *)
    rewrite parseInt_plain
      by (rewrite all_plain_app, all_plain_digits, all_plain_zeros;
          reflexivity).
    rewrite or_zero_parse_radix, radix_prefix_digits, radix_prefix_only_zeros.
    unfold radix_value. rewrite fold_left_app, fold_radix_zeros.
    fold (radix_value 10 (map digit_N s)). rewrite radix_value_digits.
    rewrite N2Z.inj_mul, N2Z.inj_pow, nat_N_Z, Z2Nat.id by lia.
    reflexivity.
  - destruct (Z.ltb_spec 0 n) as [Hp|Hp].
    + (* some digits, the point, the other digits *)
      rewrite parseInt_plain
        by (rewrite !all_plain_app, !all_plain_digits; reflexivity).
      rewrite or_zero_parse_radix, radix_prefix_digits.
      cbn [String.append radix_prefix]. change (digit_of_char 10 ".") with (@None N).
      cbv iota. rewrite app_nil_r, radix_value_digits.
      rewrite digits_val_firstn by lia.
      rewrite N2Z.inj_div, N2Z.inj_pow, nat_N_Z.
      do 2 f_equal. lia.
    + (* zero, the point, zeros, the digits *)
      rewrite parseInt_plain.
      2:{ cbn [String.append all_plain].
          rewrite all_plain_app, all_plain_digits, all_plain_zeros.
          reflexivity. }
      rewrite or_zero_parse_radix.
      cbn [String.append radix_prefix].
      change (digit_of_char 10 "0") with (Some 0%N).
      change (digit_of_char 10 ".") with (@None N). cbv iota.
      change (Z.of_N (radix_value 10 [0%N])) with 0.
      symmetry. apply Z.div_small. split; [lia|].
      pose proof (digits_val_bound s) as Hb.
      apply N2Z.inj_lt in Hb. rewrite N2Z.inj_pow, nat_N_Z in Hb.
      change (Z.of_N 10) with 10 in Hb.
      eapply Z.lt_le_trans; [exact Hb|].
      apply Z.pow_le_mono_r; lia.
Qed.

(** In exponent notation it reads the first digit only. *)
Lemma parseInt_leading_digit d c t :
  c = "."%char \/ c = "e"%char ->
  parseInt_string (String (digit_char d) (String c t)) =
  Some (Z.of_N (digit_N d)).
Proof. intros [-> | ->]; destruct d; reflexivity. Qed.

Lemma parseInt_exponent d s n :
  n < -5 \/ 21 < n ->
  parseInt_string (unsigned_toString (d :: s) n) = Some (Z.of_N (digit_N d)).
Proof.
  intros Hn. unfold unsigned_toString.
  replace ((-5 <=? n) && (n <=? 21)) with false.
  2:{ symmetry. apply andb_false_iff.
      destruct Hn; [left; apply Z.leb_gt | right; apply Z.leb_gt]; lia. }
  destruct s as [|d' s']; cbn [string_of_digits firstn skipn String.append];
    apply parseInt_leading_digit; auto.
Qed.

(** A minus sign makes the result zero or negative. *)
Lemma parseInt_minus t : or_zero (parseInt_string (String "-" t)) <= 0.
Proof.
  unfold parseInt_string. cbn [trim_start].
  change (is_white "-") with false. cbv iota.
  change (Ascii.eqb "-" "-") with true. cbv iota.
  destruct (parse_unsigned t); simpl; lia.
Qed.

Lemma digit_of_char_not_decimal c :
  is_decimal c = false -> digit_of_char 10 c = None.
Proof.
  unfold is_decimal, digit_of_char. cbv zeta. intros H. rewrite H.
  destruct ((97 <=? N_of_ascii c) && (N_of_ascii c <=? 122))%N eqn:E1.
  - apply andb_prop in E1. destruct E1 as [E1 _]. apply N.leb_le in E1.
    replace (N_of_ascii c - 87 <? 10)%N with false; [reflexivity|].
    symmetry. apply N.ltb_ge. lia.
  - destruct ((65 <=? N_of_ascii c) && (N_of_ascii c <=? 90))%N eqn:E2;
      [|reflexivity].
    apply andb_prop in E2. destruct E2 as [E2 _]. apply N.leb_le in E2.
    replace (N_of_ascii c - 55 <? 10)%N with false; [reflexivity|].
    symmetry. apply N.ltb_ge. lia.
Qed.

Lemma parse_unsigned_no_digit t :
  head_is_decimal t = false -> parse_unsigned t = None.
Proof.
  destruct t as [|c1 r]; [reflexivity|]. simpl. intros H.
  assert (E0 : Ascii.eqb c1 "0" = false).
  { destruct (Ascii.eqb_spec c1 "0"); [subst; discriminate | reflexivity]. }
  unfold parse_unsigned. rewrite E0. simpl.
  unfold parse_radix. simpl. rewrite (digit_of_char_not_decimal _ H).
  destruct r; reflexivity.
Qed.

Lemma parseInt_no_digit s :
  begins_with_digit s = false -> parseInt_string s = None.
Proof.
  unfold begins_with_digit, parseInt_string. cbv zeta.
  destruct (trim_start s) as [|c r]; [reflexivity|].
  destruct (Ascii.eqb c "-"); cbn [orb].
  - intros H. now rewrite (parse_unsigned_no_digit _ H).
  - destruct (Ascii.eqb c "+"); cbn [orb]; intros H.
    + now rewrite (parse_unsigned_no_digit _ H).
    + now rewrite (parse_unsigned_no_digit (String c r) H).
Qed.

(** The Number of an integer: [of_Z] is right. *)
Lemma of_uint_acc_digits u acc :
  Npos (Pos.of_uint_acc u acc) =
  fold_left (fun a d => 10 * a + digit_N d)%N (digits_of_uint u) (Npos acc).
Proof.
  revert acc. induction u; intros acc; cbn [Pos.of_uint_acc digits_of_uint fold_left];
    try reflexivity; rewrite IHu; f_equal; cbn [digit_N]; lia.
Qed.

Lemma of_uint_digits u : Pos.of_uint u = digits_val (digits_of_uint u).
Proof.
  unfold digits_val.
  induction u; cbn [Pos.of_uint digits_of_uint fold_left];
    try reflexivity; try exact IHu; apply of_uint_acc_digits.
Qed.

Lemma digits_of_pos p : digits_val (digits_of_uint (Pos.to_uint p)) = Npos p.
Proof. rewrite <- of_uint_digits. apply DecimalPos.Unsigned.of_to. Qed.

Lemma drop_d0_split l : exists j, l = repeat d0 j ++ drop_d0 l.
Proof.
  induction l as [|d l [j IH]].
  - now exists 0%nat.
  - destruct d; try (now exists 0%nat).
    exists (S j). simpl. now rewrite <- IH.
Qed.

Lemma strip_trailing_split s :
  exists j, s = strip_trailing s ++ repeat d0 j.
Proof.
  destruct (drop_d0_split (rev s)) as [j Hj]. exists j.
  unfold strip_trailing.
  rewrite <- (rev_involutive s) at 1. rewrite Hj at 1.
  rewrite rev_app_distr. f_equal.
  clear. induction j as [|j IH]; [reflexivity|].
  simpl. rewrite IH. clear. induction j; simpl; congruence.
Qed.

Lemma digits_val_zeros j : digits_val (repeat d0 j) = 0%N.
Proof.
  unfold digits_val. induction j as [|j IH]; [reflexivity|]. exact IH.
Qed.

Lemma strip_trailing_value s :
  klen (strip_trailing s) <= klen s /\
  Z.of_N (digits_val (strip_trailing s)) *
    10 ^ (klen s - klen (strip_trailing s)) =
  Z.of_N (digits_val s).
Proof.
  destruct (strip_trailing_split s) as [j Hj].
  set (t := strip_trailing s) in *.
  assert (Hl : klen s = klen t + Z.of_nat j).
  { unfold klen. rewrite Hj at 1. rewrite length_app, repeat_length. lia. }
  split; [lia|].
  rewrite Hj at 2. rewrite digits_val_app, digits_val_zeros, repeat_length.
  rewrite N.add_0_r, N2Z.inj_mul, N2Z.inj_pow, nat_N_Z.
  do 2 f_equal. lia.
Qed.


End JsFacts.

(** ** The lifecycle state Active *)

Lemma active_inv o :
  active o = true ->
  isInitialized o = true /\
  (exists w, worker o = Some w) /\ (exists n, native o = Some n).
Proof.
  unfold active. destruct (isInitialized o), (worker o), (native o);
    simpl; try discriminate; eauto.
Qed.


Lemma posted_requests_app t u :
  posted_requests (t ++ u) = posted_requests t ++ posted_requests u.
Proof.
  induction t as [|e t IH]; simpl; [easy|].
  destruct e; simpl; now rewrite ?IH.
Qed.

Section CoordinatorFacts.
Variable source_text : fref -> string.
Variable callee : fref -> list value -> list event -> outcome value.


(** *** Equations of the overrides in an Active Coordinator *)

Lemma register_eq k c f d rest s :
  (exists w, worker (this s) = Some w) ->
  register source_text k c (VFun f) d rest s =
  (Normal (VNum (of_Z (idCounter (this s) + 1))),
   registered source_text k c f d rest s).
Proof.
  intros [w Hw]. destruct s as [o h]. simpl in Hw.
  unfold register, registered, bind, get_this, update_this,
    postMessage, emit, update_host, ret; simpl.
  unfold bind, get_this; simpl. rewrite Hw. reflexivity.
Qed.

Lemma setTimeout_eq f d rest s :
  active (this s) = true ->
  window_setTimeout source_text callee (VFun f) d rest s =
  (Normal (VNum (of_Z (idCounter (this s) + 1))),
   registered source_text timeout SetTimeout f (default_delay d) rest s).
Proof.
  intros Ha. destruct (active_inv _ Ha) as (Hi & Hw & _).
  unfold window_setTimeout, bind, get_this.
  rewrite Hi. simpl. now apply register_eq.
Qed.

Lemma setInterval_eq f d rest s :
  active (this s) = true ->
  window_setInterval source_text callee (VFun f) d rest s =
  (Normal (VNum (of_Z (idCounter (this s) + 1))),
   registered source_text interval SetInterval f (default_delay d) rest s).
Proof.
  intros Ha. destruct (active_inv _ Ha) as (Hi & Hw & _).
  unfold window_setInterval, bind, get_this.
  rewrite Hi. simpl. now apply register_eq.
Qed.


Lemma onmessage_unknown id s :
  JsMap.get (callbacks (this s)) id = None ->
  onmessage callee (tick id) s = (Normal tt, s).
Proof.
  intros Hg. destruct s as [o h]. simpl in Hg.
  unfold onmessage, bind, get_this, ret; simpl.
  now rewrite Hg.
Qed.


Lemma cancel_known c f id k s :
  active (this s) = true ->
  key_of id = Some k ->
  JsMap.has (callbacks (this s)) k = true ->
  cancel callee c f id s = (Normal VUndefined, cancelled c k s).
Proof.
  intros Ha Hk Hh. destruct (active_inv _ Ha) as (Hi & [w Hw] & _).
  destruct s as [o h]. simpl in *.
  unfold cancel, cancelled, bind, get_this, update_this, postMessage, emit,
    update_host, ret; simpl.
  rewrite Hi, Hk, Hh. simpl.
  unfold bind, update_this, get_this; simpl. rewrite Hw. reflexivity.
Qed.

Lemma cancel_unknown c f id n s :
  active (this s) = true ->
  native (this s) = Some n ->
  (forall k, key_of id = Some k -> JsMap.has (callbacks (this s)) k = false) ->
  snd (cancel callee c f id s) = fell_back (f n) id s.
Proof.
  intros Ha Hn Hk. destruct (active_inv _ Ha) as (Hi & _ & _).
  destruct s as [o h]. simpl in *.
  unfold cancel, fell_back, bind, get_this, call_native, call, ret; simpl.
  rewrite Hi. simpl.
  destruct (key_of id) as [k|] eqn:E.
  - rewrite (Hk k eq_refl). unfold bind, get_this; simpl. rewrite Hn. simpl.
    destruct (callee (f n) [id] (trace h)); reflexivity.
  - unfold bind, get_this; simpl. rewrite Hn. simpl.
    destruct (callee (f n) [id] (trace h)); reflexivity.
Qed.

(** *** Activation *)

Lemma init_capable o h :
  isInitialized o = false ->
  capable h = true ->
  let r := init {| this := o; host := h |} in
  let k := List.length (funs h) in
  fst r = Normal true /\
  active (this (snd r)) = true /\
  callbacks (this (snd r)) = callbacks o /\
  idCounter (this (snd r)) = idCounter o /\
  native (this (snd r)) = Some (snapshot k) /\
  window (host (snd r)) = overrides k /\
  funs (host (snd r)) =
    funs h ++
    [Bound (setInterval (window h)); Bound (setTimeout (window h));
     Bound (clearInterval (window h)); Bound (clearTimeout (window h));
     Override SetInterval; Override SetTimeout;
     Override ClearInterval; Override ClearTimeout].
Proof.
  intros Hi Hc. unfold capable in Hc.
  destruct o as [i w u cbs cnt nat0], h as [hw hW bu bw dw win fs tr].
  simpl in *. subst i.
  destruct hw, hW; try discriminate. simpl in Hc.
  unfold init, create_worker, overrideGlobalTimers, bind, get_this, get_host,
    alloc, update_this, update_host, emit, ret, active, snapshot, overrides;
    simpl.
  rewrite !length_app. simpl.
  replace (List.length fs + 1 + 1 + 1)%nat with (List.length fs + 3)%nat by lia.
  replace (List.length fs + 1 + 1)%nat with (List.length fs + 2)%nat by lia.
  destruct bu as [url|]; [destruct bw|]; simpl;
    try (destruct dw; try discriminate); simpl;
    unfold update_host, update_this, bind, ret; simpl;
    rewrite ?length_app; simpl;
    rewrite <- ?app_assoc; simpl;
    repeat split; try reflexivity; f_equal; lia.
Qed.


(** *** Registration and firing *)


(** C7: in an Active Coordinator a registration call whose callback is
    not invocable throws a TypeError and leaves the whole state as it
    was: no id allocated, no entry stored, no message sent. *)
Theorem C7_non_invocable_rejected (s : St) (cb d : value)
        (rest : list value) :
  active (this s) = true ->
  is_function cb = false ->
  window_setInterval source_text callee cb d rest s =
    (Abrupt (TypeError message_not_function), s) /\
  window_setTimeout source_text callee cb d rest s =
    (Abrupt (TypeError message_not_function), s).
Proof.
  intros Ha Hf. destruct (active_inv _ Ha) as (Hi & _ & _).
  unfold window_setInterval, window_setTimeout,
    bind, get_this.
  rewrite Hi. simpl.
  destruct cb; try discriminate; split; reflexivity.
Qed.

(** *** Cancellation *)

(** C8: in an Active Coordinator, cancel-interval and cancel-timeout of
    an id that is not in the mapping call the captured native function of
    the same kind with that same id; the Coordinator object is unchanged
    (so is its mapping) and the call is the only effect (no message is
    posted to the worker). *)
Theorem C8_unknown_id_falls_back (s : St) (id : value)
        (n : TimerFunctions) :
  active (this s) = true ->
  native (this s) = Some n ->
  (forall k, key_of id = Some k -> JsMap.has (callbacks (this s)) k = false) ->
  let called f :=
    {| this := this s;
       host := with_trace (trace (host s) ++ [Invoke f [id]]) (host s) |} in
  snd (window_clearInterval callee id s) = called (clearInterval n) /\
  snd (window_clearTimeout callee id s) = called (clearTimeout n).
Proof.
  intros Ha Hn Hk called. unfold window_clearInterval, window_clearTimeout.
  split; now rewrite (cancel_unknown _ _ _ _ _ Ha Hn Hk).
Qed.

(** C10: in an Active Coordinator each cancellation override removes the
    entry of an id that is in the mapping whatever the entry's type is,
    so that a later fired notification for the id invokes nothing, and
    the message it posts carries the command of the override that was
    called: [clearTimeout] from [window.clearTimeout], [clearInterval]
    from [window.clearInterval]. *)
Theorem C10_cancel_ignores_entry_type (s : St) (id : value) (k : Z)
        (e : TimerEntry) :
  active (this s) = true ->
  key_of id = Some k ->
  JsMap.get (callbacks (this s)) k = Some e ->
  let removed c :=
    {| this := with_callbacks (JsMap.delete (callbacks (this s)) k) (this s);
       host := with_trace
         (trace (host s) ++ [PostMessage (Request c k None)]) (host s) |} in
  window_clearTimeout callee id s = (Normal VUndefined, removed ClearTimeout) /\
  window_clearInterval callee id s =
    (Normal VUndefined, removed ClearInterval) /\
  forall c,
    JsMap.get (callbacks (this (removed c))) k = None /\
    onmessage callee (tick k) (removed c) = (Normal tt, removed c).
Proof.
  intros Ha Hk Hg removed.
  assert (Hh : JsMap.has (callbacks (this s)) k = true)
    by (apply JsMapFacts.has_get; eauto).
  unfold window_clearInterval, window_clearTimeout.
  rewrite !(cancel_known _ _ _ _ _ Ha Hk Hh).
  repeat split.
  - simpl. apply JsMapFacts.get_delete_same.
  - apply onmessage_unknown. simpl. apply JsMapFacts.get_delete_same.
Qed.

(** *** Fault isolation *)


End CoordinatorFacts.

(** ** Sanitization of the delay *)

Section Sanitization.
Variable source_text : fref -> string.
Variable callee : fref -> list value -> list event -> outcome value.

Lemma sanitizeDelay_or_zero d :
  sanitizeDelay source_text d =
  Z.max 0 (or_zero (parseInt source_text d)).
Proof. reflexivity. Qed.

Lemma sanitizeDelay_nonneg d : 0 <= sanitizeDelay source_text d.
Proof. unfold sanitizeDelay. lia. Qed.

Lemma trunc_magnitude_nonneg s n : 0 <= trunc_magnitude s n.
Proof.
  unfold trunc_magnitude. destruct (Z.leb_spec (klen s) n).
  - apply Z.mul_nonneg_nonneg; [lia | apply Z.pow_nonneg; lia].
  - apply Z.div_pos; [lia|]. apply Z.pow_pos_nonneg; lia.
Qed.

(** A non-negative Number printed without exponent is truncated. *)
Lemma sanitizeDelay_in_range s n :
  -5 <= n <= 21 ->
  sanitizeDelay source_text (VNum (Dec false s n)) = trunc_magnitude s n.
Proof.
  intros Hn. rewrite sanitizeDelay_or_zero. unfold parseInt. simpl ToString.
  rewrite (JsFacts.parseInt_in_range s n Hn).
  pose proof (trunc_magnitude_nonneg s n). lia.
Qed.

(** A negative Number gives 0. *)
Lemma sanitizeDelay_negative s n :
  sanitizeDelay source_text (VNum (Dec true s n)) = 0.
Proof.
  rewrite sanitizeDelay_or_zero. unfold parseInt. simpl ToString.
  pose proof (JsFacts.parseInt_minus (unsigned_toString s n)). lia.
Qed.

(** A Number printed in exponent notation (from 1e21 on, or below 1e-6)
    gives its first digit. *)
Lemma sanitizeDelay_exponent d s n :
  n < -5 \/ 21 < n ->
  sanitizeDelay source_text (VNum (Dec false (d :: s) n)) =
  Z.of_N (digit_N d).
Proof.
  intros Hn. rewrite sanitizeDelay_or_zero. unfold parseInt. simpl ToString.
  rewrite (JsFacts.parseInt_exponent d s n Hn). simpl. lia.
Qed.

(** A positive integer of at most 21 digits is kept, a negative integer
    gives 0. *)
Lemma sanitizeDelay_integer p :
  klen (digits_of_uint (Pos.to_uint p)) <= 21 ->
  sanitizeDelay source_text (VNum (of_Z (Zpos p))) = Zpos p /\
  sanitizeDelay source_text (VNum (of_Z (Zneg p))) = 0.
Proof.
  intros Hk. unfold of_Z. split; [|apply sanitizeDelay_negative].
  set (s := digits_of_uint (Pos.to_uint p)) in *.
  rewrite sanitizeDelay_in_range by (unfold klen in *; lia).
  destruct (JsFacts.strip_trailing_value s) as [Hl Hv].
  unfold trunc_magnitude.
  destruct (Z.leb_spec (klen (strip_trailing s)) (klen s)); [|lia].
  rewrite Hv. unfold s. now rewrite JsFacts.digits_of_pos.
Qed.

(** A value whose text does not begin with a digit gives 0. *)
Lemma sanitizeDelay_no_digit v :
  begins_with_digit (ToString source_text v) = false ->
  sanitizeDelay source_text v = 0.
Proof.
  intros H. rewrite sanitizeDelay_or_zero. unfold parseInt.
  now rewrite (JsFacts.parseInt_no_digit _ H).
Qed.

(** C6, as amended: in an Active Coordinator both registration calls
    post to the worker, and store in the entry, the same delay
    [Math.max(0, parseInt(delay) || 0)], a non-negative integer.  It is
    0 when the delay is absent, when it is NaN or an infinity, and when
    its text does not begin, after white space and one optional sign,
    with a decimal digit; it is 0 when the delay is a negative Number;
    and it is the delay truncated to an integer when the delay is a
    non-negative finite Number that is printed without exponent (zero,
    or from 1e-6 up to, not including, 1e21). *)
Theorem C6_delay_sanitized (s : St) (f : fref) (d : value)
        (rest : list value) :
  active (this s) = true ->
  let sent := sanitizeDelay source_text (default_delay d) in
  let id := idCounter (this s) + 1 in
  let r1 := window_setTimeout source_text callee (VFun f) d rest s in
  let r2 := window_setInterval source_text callee (VFun f) d rest s in
  (trace (host (snd r1)) =
     trace (host s) ++ [PostMessage (Request SetTimeout id (Some sent))] /\
   option_map delay (JsMap.get (callbacks (this (snd r1))) id) = Some sent /\
   trace (host (snd r2)) =
     trace (host s) ++ [PostMessage (Request SetInterval id (Some sent))] /\
   option_map delay (JsMap.get (callbacks (this (snd r2))) id) = Some sent) /\
  0 <= sent /\
  (d = VUndefined -> sent = 0) /\
  (d = VNum NaN -> sent = 0) /\
  (forall neg, d = VNum (Infinity neg) -> sent = 0) /\
  (begins_with_digit (ToString source_text d) = false -> sent = 0) /\
  (forall ds n, d = VNum (Dec true ds n) -> sent = 0) /\
  (forall neg, d = VNum (Zero neg) -> sent = 0) /\
  (forall ds n, d = VNum (Dec false ds n) -> -5 <= n <= 21 ->
     sent = trunc_magnitude ds n).
Proof.
  intros Ha sent id r1 r2. subst r1 r2.
  rewrite (setTimeout_eq _ _ _ _ _ _ Ha), (setInterval_eq _ _ _ _ _ _ Ha).
  cbn [snd]. unfold registered. cbn [this host callbacks trace with_trace
    with_callbacks].
  rewrite !JsMapFacts.get_set_same. cbn [option_map delay].
  split; [repeat split|].
  split; [apply sanitizeDelay_nonneg|].
  subst sent.
  split; [intros ->; reflexivity|].
  split; [intros ->; reflexivity|].
  split; [intros neg ->; destruct neg; reflexivity|].
  split.
  { intros H.
    destruct d; [reflexivity | apply sanitizeDelay_no_digit; exact H ..]. }
  split; [intros ds n ->; apply sanitizeDelay_negative|].
  split; [intros neg ->; reflexivity|].
  intros ds n -> Hn. now apply sanitizeDelay_in_range.
Qed.

End Sanitization.

(** ** Activation, deactivation and the global functions *)

Section Lifecycle.
Variable source_text : fref -> string.
Variable callee : fref -> list value -> list event -> outcome value.

Lemma same_frame_refl s : same_frame s s.
Proof. unfold same_frame. repeat split. Qed.

Lemma same_frame_trans s1 s2 s3 :
  same_frame s1 s2 -> same_frame s2 s3 -> same_frame s1 s3.
Proof.
  unfold same_frame.
  intros (A1 & A2 & A3 & A4 & A5 & A6) (B1 & B2 & B3 & B4 & B5 & B6).
  repeat split; congruence.
Qed.

Ltac frame_cases :=
  repeat match goal with
  | |- context [match ?x with _ => _ end] =>
      lazymatch x with
      | context [match _ with _ => _ end] => fail
      | _ => destruct x; simpl
      end
  end.

Lemma perform_frame a s : same_frame s (perform source_text callee a s).
Proof.
  destruct s as [[i wk u cbs cnt nat0] [hw hW bu bw dw win fs tr]].
  unfold same_frame.
  destruct a; simpl;
    unfold window_setInterval, window_setTimeout, window_clearInterval,
      window_clearTimeout, onmessage, onerror, cancel, register,
      call_native, call, postMessage, emit, update_this, update_host,
      bind, get_this, ret, throw; simpl;
    frame_cases; repeat split; reflexivity.
Qed.

Lemma run_frame l s : same_frame s (run source_text callee l s).
Proof.
  revert s. induction l as [|a l IH]; intros s; simpl.
  - apply same_frame_refl.
  - eapply same_frame_trans; [apply perform_frame | apply IH].
Qed.

(** So an Active Coordinator stays Active until it is destroyed. *)
Lemma run_active l s :
  active (this s) = true ->
  active (this (run source_text callee l s)) = true.
Proof.
  destruct (run_frame l s) as (F1 & F2 & _ & F4 & _).
  unfold active. now rewrite F1, F2, F4.
Qed.

Lemma nth_error_after {A} (l l' : list A) (i : nat) :
  nth_error (l ++ l') (List.length l + i) = nth_error l' i.
Proof. rewrite nth_error_app2 by lia. f_equal. lia. Qed.

Lemma for_of_cancellations ids o h w :
  worker o = Some w ->
  for_of ids (fun id => postMessage (Request ClearInterval id None))
    {| this := o; host := h |} =
  (Normal tt,
   {| this := o; host := with_trace (trace h ++ cancellations ids) h |}).
Proof.
  intros Hw. revert h. induction ids as [|id ids IH]; intros h.
  - simpl. unfold ret. destruct h; unfold with_trace; simpl.
    now rewrite app_nil_r.
  - simpl. unfold bind at 1, postMessage at 1, bind at 1, get_this at 1.
    simpl. rewrite Hw. unfold emit, update_host. simpl.
    rewrite IH. unfold with_trace. simpl. now rewrite <- app_assoc.
Qed.

Lemma destroy_eq s w :
  isInitialized (this s) = true ->
  worker (this s) = Some w ->
  destroy s = (Normal tt, destroyed s).
Proof.
  intros Hi Hw. destruct s as [o h]. simpl in Hi, Hw.
  unfold destroy, destroyed. unfold bind at 1, get_this at 1. simpl.
  rewrite Hi. simpl.
  unfold bind at 1.
  assert (E : (match native o with
               | Some n => update_host (with_window n)
               | None => ret tt
               end) {| this := o; host := h |} =
              (Normal tt,
               {| this := o;
                  host := match native o with
                          | Some n => with_window n h
                          | None => h
                          end |}))
    by (destruct (native o); reflexivity).
  rewrite E. clear E.
  unfold bind at 1. rewrite (for_of_cancellations _ _ _ w Hw).
  rewrite Hw.
  destruct o as [i wk u cbs cnt nat0], h as [hw hW bu bw dw win fs tr].
  simpl in *. subst.
  unfold bind, update_this, update_host, emit, ret, with_trace, with_window;
    simpl.
  destruct nat0, u; simpl; rewrite <- ?app_assoc; reflexivity.
Qed.

(** C1, as amended: after a successful activation, whatever calls and
    notifications follow, deactivation returns normally and leaves in the
    four global slots exactly the snapshot taken by the activation; the
    members of the snapshot are the four bound function objects that
    [init] made with [bind(window)], each bound to the function that was
    installed in the same slot before the activation. *)
Theorem C1_deactivate_restores_snapshot (o : TabSafeTimers) (h : Host)
        (acts : list action) :
  isInitialized o = false ->
  capable h = true ->
  let s1 := snd (init {| this := o; host := h |}) in
  let r2 := destroy (run source_text callee acts s1) in
  let snap := snapshot (List.length (funs h)) in
  native (this s1) = Some snap /\
  fst r2 = Normal tt /\
  isInitialized (this (snd r2)) = false /\
  window (host (snd r2)) = snap /\
  nth_error (funs (host (snd r2))) (setInterval snap) =
    Some (Bound (setInterval (window h))) /\
  nth_error (funs (host (snd r2))) (setTimeout snap) =
    Some (Bound (setTimeout (window h))) /\
  nth_error (funs (host (snd r2))) (clearInterval snap) =
    Some (Bound (clearInterval (window h))) /\
  nth_error (funs (host (snd r2))) (clearTimeout snap) =
    Some (Bound (clearTimeout (window h))).
Proof.
  intros Hi Hc s1 r2 snap.
  destruct (init_capable o h Hi Hc) as (_ & Ha & _ & _ & Hn & _ & Hf).
  fold s1 in Ha, Hn, Hf. cbv zeta in Hn, Hf. fold snap in Hn.
  destruct (run_frame acts s1) as (F1 & F2 & _ & F4 & _ & F6).
  set (s := run source_text callee acts s1) in *.
  destruct (active_inv _ Ha) as (Hi1 & [w Hw] & _).
  assert (E : destroy s = (Normal tt, destroyed s)).
  { apply (destroy_eq s w); congruence. }
  subst r2. rewrite E. cbn [fst snd].
  assert (Hfuns : funs (host (destroyed s)) = funs (host s1)).
  { unfold destroyed. simpl. rewrite F4, Hn. simpl. exact F6. }
  assert (Hwin : window (host (destroyed s)) = snap).
  { unfold destroyed. simpl. rewrite F4, Hn. reflexivity. }
  rewrite Hfuns, Hf.
  assert (N0 : forall l' : list fobj,
            nth_error (funs h ++ l') (List.length (funs h)) =
            nth_error l' 0).
  { intros l'. rewrite <- (nth_error_after (funs h) l' 0). f_equal. lia. }
  unfold snap, snapshot in *.
  cbn [setInterval setTimeout clearInterval clearTimeout].
  rewrite N0, !nth_error_after.
  repeat split; assumption.
Qed.

End Lifecycle.

(** ** Callbacks that call the timer functions *)


Section ReentrantFacts.
Variable source_text : fref -> string.
Variable callee : fref -> list value -> list event -> outcome value.
Variable script : fref -> list value -> list event -> list reentry.


(** For a callback that leaves the Coordinator alone the two handlers
    are the same. *)
Lemma onmessage_reentrant_idle e s :
  (forall cbd, JsMap.get (callbacks (this s)) (msg_id e) = Some cbd ->
     (forall c, nth_error (funs (host s)) (callback cbd) <>
                Some (Override c)) /\
     script (callback cbd) (args cbd) (trace (host s)) = []) ->
  onmessage_reentrant source_text callee script e s = onmessage callee e s.
Proof.
  intros H.
  unfold onmessage_reentrant, onmessage, bind, get_this.
  destruct (String.eqb (msg_type e) "tick"); [|reflexivity].
  destruct (JsMap.get (callbacks (this s)) (msg_id e)) as [cbd|] eqn:Hg;
    [|reflexivity].
  destruct (H cbd eq_refl) as [H1 H2].
  unfold invoke, call. rewrite H2. cbn [run_script fold_left].
  destruct (nth_error (funs (host s)) (callback cbd)) as [[| |c]|];
    try reflexivity.
  now destruct (H1 c).
Qed.


Lemma window_start_eq k f d rest s :
  active (this s) = true ->
  window_start source_text callee k (VFun f) d rest s =
  (Normal (VNum (of_Z (idCounter (this s) + 1))),
   registered source_text k (start_command k) f (default_delay d) rest s).
Proof.
  intros Ha. destruct k; simpl.
  - now apply setInterval_eq.
  - now apply setTimeout_eq.
Qed.

(** *** What a call of an override from inside a callback keeps *)






(** *** What no callback can undo: the id stays handed out *)















(** *** A notification for an interval whose callback keeps it *)






End ReentrantFacts.

(** ** The worker and deactivation *)

Section WorkerFacts.

Lemma posted_cancellations ids :
  posted_requests (cancellations ids) =
  map (fun id => Request ClearInterval id None) ids.
Proof.
  induction ids as [|k ks IH]; simpl; [reflexivity | now rewrite IH].
Qed.

(** What [destroy] posts: a [clearInterval] request for every id of the
    mapping, in the order of the mapping, whatever the entry's type. *)
Lemma destroy_posts s w :
  isInitialized (this s) = true ->
  worker (this s) = Some w ->
  posted_requests (trace (host (snd (destroy s)))) =
  posted_requests (trace (host s)) ++
  map (fun id => Request ClearInterval id None)
      (JsMap.keys (callbacks (this s))).
Proof.
  intros Hi Hw. rewrite (destroy_eq s w Hi Hw). cbn [snd].
  assert (E : trace (host (destroyed s)) =
              trace (host s) ++
              cancellations (JsMap.keys (callbacks (this s))) ++
              [Terminate w] ++
              match workerUrl (this s) with
              | Some u => [RevokeObjectURL u]
              | None => []
              end).
  { unfold destroyed. simpl. rewrite Hw.
    destruct (native (this s)); reflexivity. }
  rewrite E, !posted_requests_app, posted_cancellations.
  destruct (workerUrl (this s)); simpl; now rewrite app_nil_r.
Qed.

(** The worker's [clearInterval] case removes an id of the interval
    mapping. *)
Lemma worker_clearInterval_known id h w :
  JsMap.get (Worker.intervalMap w) id = Some h ->
  Worker.truthy h = true ->
  JsMap.get
    (Worker.intervalMap
       (Worker.onmessage (Request ClearInterval id None) w)) id = None.
Proof.
  intros Hg Ht. unfold Worker.onmessage. simpl. rewrite Hg, Ht. simpl.
  apply JsMapFacts.get_delete_same.
Qed.

(** It looks in the interval mapping only: an id that is only in the
    timeout mapping stays there, and its timer stays armed. *)
Lemma worker_clearInterval_timeout id w :
  JsMap.get (Worker.intervalMap w) id = None ->
  Worker.onmessage (Request ClearInterval id None) w = w.
Proof.
  intros Hg. unfold Worker.onmessage. simpl. now rewrite Hg.
Qed.

End WorkerFacts.

(** ** The singleton *)

Section SingletonFacts.

(** When [init] throws, [instance] keeps the object that was constructed
    for it. *)
Lemma initTabSafeTimers_not_capable h :
  (has_window h && has_Worker h)%bool = false ->
  initTabSafeTimers {| instance := None; mhost := h |} =
  (Abrupt (Error message_not_browser),
   {| instance := Some new_TabSafeTimers;
      mhost := with_trace (trace h ++ [Construct]) h |}).
Proof.
  intros Hc. unfold initTabSafeTimers, bind, get_instance, emit_module,
    set_instance, on_instance; simpl.
  unfold init, bind, get_this, get_host, throw; simpl.
  destruct (has_window h), (has_Worker h); try discriminate; reflexivity.
Qed.

(** With an object in [instance], [initTabSafeTimers] returns it and
    does nothing else, whether it is initialized or not. *)
Lemma initTabSafeTimers_existing o h :
  initTabSafeTimers {| instance := Some o; mhost := h |} =
  (Normal (Some o), {| instance := Some o; mhost := h |}).
Proof. reflexivity. Qed.

(** In a host where [init] succeeds, [instance] gets an Active
    Coordinator, which is what is returned. *)
Lemma initTabSafeTimers_capable h :
  capable h = true ->
  exists o,
    fst (initTabSafeTimers {| instance := None; mhost := h |}) =
      Normal (Some o) /\
    instance (snd (initTabSafeTimers {| instance := None; mhost := h |})) =
      Some o /\
    active o = true.
Proof.
  intros Hc.
  pose proof (init_capable new_TabSafeTimers
                (with_trace (trace h ++ [Construct]) h) eq_refl) as H.
  assert (Hc' : capable (with_trace (trace h ++ [Construct]) h) = true)
    by exact Hc.
  destruct (H Hc') as (H1 & H2 & _). clear H.
  unfold initTabSafeTimers, bind, get_instance, emit_module, set_instance,
    on_instance. cbn [instance mhost].
  destruct (init {| this := new_TabSafeTimers;
                    host := with_trace (trace h ++ [Construct]) h |})
    as [r s] eqn:E.
  cbn [fst snd] in H1, H2. subst r. cbn.
  exists (this s). repeat split. exact H2.
Qed.

End SingletonFacts.

(** ** The claims at concrete inputs *)


(** C7 at a concrete input: the number 42 as callback. *)
Lemma C7_non_invocable_rejected_witness :
  window_setInterval Example.source_text Example.quiet
    (VNum (of_Z 42)) (VNum (of_Z 100)) [] Example.fresh =
    (Abrupt (TypeError message_not_function), Example.fresh) /\
  window_setTimeout Example.source_text Example.quiet
    (VNum (of_Z 42)) (VNum (of_Z 100)) [] Example.fresh =
    (Abrupt (TypeError message_not_function), Example.fresh).
Proof.
  apply (C7_non_invocable_rejected Example.source_text Example.quiet
           Example.fresh (VNum (of_Z 42)) (VNum (of_Z 100)) []);
    reflexivity.
Defined.



(** C8 at a concrete input: [clearTimeout(99999)] and
    [clearInterval(99999)] in the fresh Coordinator. *)
Lemma C8_unknown_id_falls_back_witness :
  let id := VNum (Dec false [d9; d9; d9; d9; d9] 5) in
  invocations
    (trace (host (snd (window_clearInterval Example.quiet id Example.fresh))))
    = [(6%nat, [id])] /\
  invocations
    (trace (host (snd (window_clearTimeout Example.quiet id Example.fresh))))
    = [(7%nat, [id])].
Proof.
  intros id.
  destruct (C8_unknown_id_falls_back Example.quiet Example.fresh id
              (snapshot 4) eq_refl eq_refl) as [H1 H2].
  - intros k Hk. reflexivity.
  - rewrite H1, H2. split; reflexivity.
Defined.


(** C10 at a concrete input: [clearTimeout(1)] when 1 is an interval. *)
Lemma C10_cancel_ignores_entry_type_witness :
  let r := window_clearTimeout Example.quiet Example.one
             Example.one_interval in
  fst r = Normal VUndefined /\
  callbacks (this (snd r)) = [] /\
  posted_requests (trace (host (snd r))) =
    [Request SetInterval 1 (Some 100); Request ClearTimeout 1 None] /\
  onmessage Example.quiet (tick 1) (snd r) = (Normal tt, snd r).
Proof.
  destruct (C10_cancel_ignores_entry_type Example.quiet Example.one_interval
              Example.one 1
              {| type := interval; callback := Example.cb; args := [];
                 delay := 100 |} eq_refl eq_refl eq_refl)
    as (H1 & _ & H3).
  destruct (H3 ClearTimeout) as [_ H4].
  cbv zeta. rewrite H1. cbn [fst snd].
  split; [reflexivity|]. split; [reflexivity|]. split; [reflexivity|].
  exact H4.
Defined.

(** C1 as stated fails: in the browser host the four global functions
    are the objects 0 to 3 before the activation; after activation and
    deactivation the slots hold the objects 4 to 7, the bound functions,
    none of which is the function that was there before. *)
Lemma C1_counterexample :
  let s1 := snd (init {| this := new_TabSafeTimers;
                         host := Example.browser |}) in
  let s2 := snd (destroy s1) in
  setInterval (window (host s2)) <> setInterval (window Example.browser) /\
  setTimeout (window (host s2)) <> setTimeout (window Example.browser) /\
  clearInterval (window (host s2)) <> clearInterval (window Example.browser) /\
  clearTimeout (window (host s2)) <> clearTimeout (window Example.browser).
Proof. simpl. repeat split; discriminate. Qed.

(** C1 as amended, at a concrete input: activation in the browser host,
    a timeout that fires, an interval, deactivation. *)
Lemma C1_deactivate_restores_snapshot_witness :
  let acts := [CallSetTimeout (VFun Example.cb) Example.hundred [];
               Notify (tick 1);
               CallSetInterval (VFun Example.cb) Example.hundred []] in
  let s1 := snd (init {| this := new_TabSafeTimers;
                         host := Example.browser |}) in
  let r2 := destroy (run Example.source_text Example.quiet acts s1) in
  native (this s1) = Some (snapshot 4) /\
  fst r2 = Normal tt /\
  window (host (snd r2)) = snapshot 4 /\
  nth_error (funs (host (snd r2))) 4 = Some (Bound 0%nat).
Proof.
  intros acts.
  destruct (C1_deactivate_restores_snapshot Example.source_text
              Example.quiet new_TabSafeTimers Example.browser acts
              eq_refl eq_refl) as (H1 & H2 & _ & H4 & H5 & _).
  exact (conj H1 (conj H2 (conj H4 H5))).
Defined.

(** C4 fails on the code: after [setTimeout(cb, 100)], which the worker
    has processed, the mapping holds the timeout id 1; [destroy] posts
    [clearInterval] for it, and the worker, processing that request,
    keeps id 1 in its timeout mapping and keeps its timer armed. *)
Theorem C4_destroy_leaves_timeout_armed :
  let s := Example.one_timeout in
  let before := posted_requests (trace (host s)) in
  let w := Worker.process before Worker.start in
  let after := posted_requests (trace (host (snd (destroy s)))) in
  let w' := Worker.process after Worker.start in
  JsMap.get (callbacks (this s)) 1 =
    Some {| type := timeout; callback := Example.cb; args := [];
            delay := 100 |} /\
  JsMap.get (Worker.timeoutMap w) 1 = Some 1 /\
  after = before ++ [Request ClearInterval 1 None] /\
  JsMap.get (Worker.timeoutMap w') 1 = Some 1 /\
  Worker.armed w' =
    [{| Worker.handle := 1; Worker.timer_kind := timeout;
        Worker.timer_id := 1; Worker.timer_delay := Some 100 |}].
Proof. vm_compute. repeat split. Qed.

(** C5 fails on the code: in a host without [Worker],
    [initTabSafeTimers] throws the environment error and leaves in
    [instance] the Coordinator it constructed, which is not initialized;
    [getTabSafeTimers] returns it; and a later [initTabSafeTimers], in a
    host that has [Worker], returns the same object, constructs nothing
    and activates nothing. *)
Theorem C5_failed_activation_keeps_singleton :
  let r1 := initTabSafeTimers
              {| instance := None; mhost := Example.no_Worker |} in
  let r2 := getTabSafeTimers (snd r1) in
  let later := {| instance := instance (snd r1);
                  mhost := with_trace (trace (mhost (snd r1)))
                                      Example.browser |} in
  let r3 := initTabSafeTimers later in
  fst r1 = Abrupt (Error message_not_browser) /\
  fst r2 = Normal (Some new_TabSafeTimers) /\
  isInitialized new_TabSafeTimers = false /\
  r3 = (Normal (Some new_TabSafeTimers), later) /\
  trace (mhost (snd r3)) = [Construct].
Proof. vm_compute. repeat split. Qed.

(** C6 as stated fails: the delay 1e21 is a non-negative Number, whose
    truncation is itself, and [setTimeout(cb, 1e21)] posts the delay 1,
    the digit before the [e] of its text; likewise 5e-7, whose
    truncation is 0, gives the delay 5. *)
Lemma C6_counterexample :
  let r := window_setTimeout Example.source_text Example.quiet
             (VFun Example.cb) (VNum (Dec false [d1] 22)) []
             Example.fresh in
  Number_toString (Dec false [d1] 22) = "1e+21"%string /\
  posted_requests (trace (host (snd r))) = [Request SetTimeout 1 (Some 1)] /\
  trunc_magnitude [d1] 22 = 1000000000000000000000 /\
  sanitizeDelay Example.source_text (VNum (Dec false [d1] 22)) <>
    trunc_magnitude [d1] 22 /\
  Number_toString (Dec false [d5] (-6)) = "5e-7"%string /\
  sanitizeDelay Example.source_text (VNum (Dec false [d5] (-6))) = 5 /\
  trunc_magnitude [d5] (-6) = 0.
Proof. vm_compute. repeat split. discriminate. Qed.

(** C6 as amended, at concrete inputs: the delays -50, ["abc"] and
    1500.75 in the fresh Coordinator. *)
Lemma C6_delay_sanitized_witness :
  let posted d :=
    posted_requests (trace (host (snd
      (window_setTimeout Example.source_text Example.quiet
         (VFun Example.cb) d [] Example.fresh)))) in
  posted (VNum (of_Z (-50))) = [Request SetTimeout 1 (Some 0)] /\
  posted (VStr "abc") = [Request SetTimeout 1 (Some 0)] /\
  posted (VNum (Dec false [d1; d5; d0; d0; d7; d5] 4)) =
    [Request SetTimeout 1 (Some 1500)].
Proof.
  intros posted. subst posted. cbv beta.
  destruct (C6_delay_sanitized Example.source_text Example.quiet
              Example.fresh Example.cb (VNum (of_Z (-50))) [] eq_refl)
    as ((H1 & _) & _ & _ & _ & _ & _ & H1' & _).
  destruct (C6_delay_sanitized Example.source_text Example.quiet
              Example.fresh Example.cb (VStr "abc") [] eq_refl)
    as ((H2 & _) & _ & _ & _ & _ & H2' & _).
  destruct (C6_delay_sanitized Example.source_text Example.quiet
              Example.fresh Example.cb
              (VNum (Dec false [d1; d5; d0; d0; d7; d5] 4)) [] eq_refl)
    as ((H3 & _) & _ & _ & _ & _ & _ & _ & _ & H3').
  rewrite H1, H2, H3.
  rewrite (H1' [d5] 2 eq_refl), (H2' eq_refl),
    (H3' [d1; d5; d0; d0; d7; d5] 4 eq_refl) by lia.
  repeat split.
Defined.

(** * Further properties of the code *)

(** ** Activation and deactivation *)

Section LifecycleMore.
Variable source_text : fref -> string.
Variable callee : fref -> list value -> list event -> outcome value.

Lemma init_initialized s :
  isInitialized (this s) = true -> init s = (Normal false, s).
Proof.
  intros Hi. unfold init, bind, get_this. rewrite Hi. reflexivity.
Qed.

Lemma destroy_inactive s :
  isInitialized (this s) = false -> destroy s = (Normal tt, s).
Proof.
  intros Hi. unfold destroy, bind, get_this. rewrite Hi. reflexivity.
Qed.

(** X1: a second [init] on a Coordinator that a first [init] has
    activated returns false and changes nothing: no second snapshot,
    no second worker, no second set of overrides. *)
Theorem X1_init_twice (o : TabSafeTimers) (h : Host) :
  isInitialized o = false ->
  capable h = true ->
  let r1 := init {| this := o; host := h |} in
  fst r1 = Normal true /\
  init (snd r1) = (Normal false, snd r1).
Proof.
  intros Hi Hc r1.
  destruct (init_capable o h Hi Hc) as (H1 & Ha & _).
  fold r1 in H1, Ha. split; [exact H1|].
  apply init_initialized.
  now destruct (active_inv _ Ha) as (H & _).
Qed.

(** X2: when [init] fails, whatever the reason, it throws an [Error],
    the Coordinator stays Inactive, and the four global functions and
    the function objects they refer to are as before: no override is
    ever installed by a failed activation. *)
Theorem X2_failed_init_installs_nothing (o : TabSafeTimers) (h : Host) :
  isInitialized o = false ->
  capable h = false ->
  let r := init {| this := o; host := h |} in
  (exists m, fst r = Abrupt (Error m)) /\
  isInitialized (this (snd r)) = false /\
  window (host (snd r)) = window h /\
  callbacks (this (snd r)) = callbacks o /\
  idCounter (this (snd r)) = idCounter o /\
  posted_requests (trace (host (snd r))) = posted_requests (trace h).
Proof.
  intros Hi Hc. unfold capable in Hc.
  destruct o as [i w u cbs cnt nat0], h as [hw hW bu bw dw win fs tr].
  simpl in *. subst i.
  unfold init, create_worker, bind, get_this, get_host, alloc, update_this,
    update_host, emit, ret, throw; simpl.
  destruct hw, hW; simpl in *;
    try (repeat split; eauto; fail).
  destruct bu as [url|]; [destruct bw|]; simpl in *;
    destruct dw as [m|]; try discriminate; simpl;
    rewrite ?posted_requests_app; simpl; rewrite ?app_nil_r;
    repeat split; eauto.
Qed.

(** X3: when the worker cannot be made from a blob URL but can be made
    from the data URL, [init] succeeds with the data-URL worker; the
    object URL, if one was made before the failure, is kept in
    [workerUrl]. *)
Theorem X3_worker_fallback (o : TabSafeTimers) (h : Host) :
  isInitialized o = false ->
  has_window h = true -> has_Worker h = true ->
  blob_url h = None \/ blob_worker h = false ->
  data_worker h = None ->
  let r := init {| this := o; host := h |} in
  fst r = Normal true /\
  isInitialized (this (snd r)) = true /\
  worker (this (snd r)) = Some DataURL /\
  workerUrl (this (snd r)) =
    match blob_url h with Some u => Some u | None => workerUrl o end /\
  trace (host (snd r)) =
    trace h ++
    match blob_url h with Some u => [CreateObjectURL u] | None => [] end ++
    [NewWorker DataURL].
Proof.
  intros Hi Hw HW Hb Hd.
  destruct o as [i w u cbs cnt nat0], h as [hw hW bu bw dw win fs tr].
  simpl in *. subst i hw hW dw.
  unfold init, create_worker, overrideGlobalTimers, bind, get_this, get_host,
    alloc, update_this, update_host, emit, ret; simpl.
  destruct bu as [url|]; simpl.
  - destruct Hb as [Hb|Hb]; [discriminate|]. subst bw. simpl.
    rewrite <- app_assoc. repeat split.
  - repeat split.
Qed.

(** X4: when the object URL is made and then both ways of making the
    worker fail, [init] throws the worker error and leaves the URL in
    [workerUrl]; the Coordinator being Inactive, [destroy] does nothing,
    so the URL that was created is not revoked. *)
Theorem X4_failed_init_keeps_object_url (o : TabSafeTimers) (h : Host)
        (u m : string) :
  isInitialized o = false ->
  has_window h = true -> has_Worker h = true ->
  blob_url h = Some u -> blob_worker h = false -> data_worker h = Some m ->
  let r := init {| this := o; host := h |} in
  fst r = Abrupt (Error (message_worker_failed ++ m)) /\
  workerUrl (this (snd r)) = Some u /\
  trace (host (snd r)) = trace h ++ [CreateObjectURL u] /\
  destroy (snd r) = (Normal tt, snd r).
Proof.
  intros Hi Hw HW Hb Hbw Hd.
  destruct o as [i w u0 cbs cnt nat0], h as [hw hW bu bw dw win fs tr].
  simpl in *. subst i hw hW bu bw dw.
  unfold init, create_worker, bind, get_this, get_host,
    alloc, update_this, update_host, emit, ret, throw; simpl.
  repeat split.
Qed.

(** X5: [destroy] is idempotent: on an Active Coordinator it returns
    normally, and a second [destroy] returns normally and changes
    nothing (nothing is posted, terminated or revoked twice). *)
Theorem X5_destroy_twice (s : St) :
  active (this s) = true ->
  fst (destroy s) = Normal tt /\
  isInitialized (this (snd (destroy s))) = false /\
  destroy (snd (destroy s)) = (Normal tt, snd (destroy s)).
Proof.
  intros Ha. destruct (active_inv _ Ha) as (Hi & [w Hw] & _).
  rewrite (destroy_eq s w Hi Hw). cbn [fst snd].
  split; [reflexivity|]. split; [reflexivity|].
  now apply destroy_inactive.
Qed.

(** X6: what [destroy] does to an Active Coordinator: it puts the
    snapshot back into the four global slots, posts one [clearInterval]
    request per id of the mapping in the order of the mapping, terminates
    the worker, revokes the object URL exactly when there is one, empties
    the mapping and clears the worker fields; the id counter and the
    snapshot are kept. *)
Theorem X6_destroy_effects (s : St) (w : scriptURL) (n : TimerFunctions) :
  isInitialized (this s) = true ->
  worker (this s) = Some w ->
  native (this s) = Some n ->
  let s' := snd (destroy s) in
  window (host s') = n /\
  trace (host s') =
    trace (host s) ++
    map (fun id => PostMessage (Request ClearInterval id None))
        (JsMap.keys (callbacks (this s))) ++
    [Terminate w] ++
    match workerUrl (this s) with
    | Some u => [RevokeObjectURL u]
    | None => []
    end /\
  this s' =
    {| isInitialized := false; worker := None; workerUrl := None;
       callbacks := JsMap.empty; idCounter := idCounter (this s);
       native := Some n |} /\
  funs (host s') = funs (host s).
Proof.
  intros Hi Hw Hn s'. subst s'. rewrite (destroy_eq s w Hi Hw). cbn [snd].
  unfold destroyed, cancellations. simpl. rewrite Hn, Hw. repeat split.
Qed.

(** An Inactive Coordinator that has a snapshot passes every call of an
    override on to the native function of the snapshot. *)
Lemma inactive_delegates s n (f : TimerFunctions -> fref) actual :
  isInitialized (this s) = false ->
  native (this s) = Some n ->
  call_native callee f actual s =
  (callee (f n) actual (trace (host s)),
   {| this := this s;
      host := with_trace (trace (host s) ++ [Invoke (f n) actual])
                         (host s) |}).
Proof.
  intros Hi Hn. unfold call_native, bind, get_this. rewrite Hn. reflexivity.
Qed.

(** X7: after [destroy], a caller that still holds one of the four
    overrides gets the native behaviour: the override calls the function
    of the snapshot with the same arguments (the delay defaulted to 0
    when absent), returns what it returns or throws what it throws, and
    leaves the Coordinator alone; no callback check, no id, no message. *)
Theorem X7_overrides_after_destroy (s : St) (n : TimerFunctions)
        (cb d id : value) (rest : list value) :
  active (this s) = true ->
  native (this s) = Some n ->
  let s' := snd (destroy s) in
  let passed f actual :=
    (callee f actual (trace (host s')),
     {| this := this s';
        host := with_trace (trace (host s') ++ [Invoke f actual])
                           (host s') |}) in
  window_setInterval source_text callee cb d rest s' =
    passed (setInterval n) (cb :: default_delay d :: rest) /\
  window_setTimeout source_text callee cb d rest s' =
    passed (setTimeout n) (cb :: default_delay d :: rest) /\
  window_clearInterval callee id s' = passed (clearInterval n) [id] /\
  window_clearTimeout callee id s' = passed (clearTimeout n) [id].
Proof.
  intros Ha Hn s' passed.
  destruct (active_inv _ Ha) as (Hi & [w Hw] & _).
  assert (Hi' : isInitialized (this s') = false)
    by (unfold s'; now rewrite (destroy_eq s w Hi Hw)).
  assert (Hn' : native (this s') = Some n)
    by (unfold s'; now rewrite (destroy_eq s w Hi Hw)).
  unfold passed.
  repeat split;
    unfold window_setInterval, window_setTimeout, window_clearInterval,
      window_clearTimeout, cancel;
    unfold bind at 1, get_this at 1; rewrite Hi'; cbn [negb];
    apply (inactive_delegates _ _ _ _ Hi' Hn').
Qed.

(** X8: a successful [init] leaves in each of the four global slots a
    new function object, the closure of the same name made by
    [overrideGlobalTimers]; none of them existed in the host before, and
    none is a member of the snapshot. *)
Theorem X8_overrides_installed (o : TabSafeTimers) (h : Host) :
  isInitialized o = false ->
  capable h = true ->
  let s := snd (init {| this := o; host := h |}) in
  let w := window (host s) in
  let look f := nth_error (funs (host s)) f in
  look (setInterval w) = Some (Override SetInterval) /\
  look (setTimeout w) = Some (Override SetTimeout) /\
  look (clearInterval w) = Some (Override ClearInterval) /\
  look (clearTimeout w) = Some (Override ClearTimeout) /\
  Forall (fun f => nth_error (funs h) f = None)
    [setInterval w; setTimeout w; clearInterval w; clearTimeout w] /\
  forall n, native (this s) = Some n ->
    Forall (fun f => ~ In f [setInterval n; setTimeout n;
                             clearInterval n; clearTimeout n])
      [setInterval w; setTimeout w; clearInterval w; clearTimeout w].
Proof.
  intros Hi Hc s w look.
  destruct (init_capable o h Hi Hc) as (_ & _ & _ & _ & Hn & Hw & Hf).
  fold s in Hn, Hw, Hf. cbv zeta in Hn, Hw, Hf.
  subst w look. cbv beta. rewrite Hw, Hf.
  unfold overrides. cbn [setInterval setTimeout clearInterval clearTimeout].
  rewrite !nth_error_after. cbn [nth_error].
  repeat split.
  - repeat constructor; apply nth_error_None; lia.
  - intros n Hn'. rewrite Hn in Hn'. injection Hn' as <-.
    unfold snapshot. cbn [setInterval setTimeout clearInterval clearTimeout].
    repeat constructor; cbn [In]; lia.
Qed.

End LifecycleMore.

(** X1 at a concrete input: the browser host. *)
Lemma X1_init_twice_witness :
  init Example.fresh = (Normal false, Example.fresh).
Proof.
  destruct (X1_init_twice new_TabSafeTimers Example.browser eq_refl eq_refl)
    as [_ H].
  exact H.
Defined.

(** X2 at a concrete input: the host in which no worker can be made. *)
Lemma X2_failed_init_installs_nothing_witness :
  let r := init {| this := new_TabSafeTimers;
                   host := Example.no_worker_at_all |} in
  isInitialized (this (snd r)) = false /\
  window (host (snd r)) = window Example.browser.
Proof.
  destruct (X2_failed_init_installs_nothing new_TabSafeTimers
              Example.no_worker_at_all eq_refl eq_refl)
    as (_ & H1 & H2 & _).
  exact (conj H1 H2).
Defined.

(** X3 at a concrete input: the host that refuses blob workers. *)
Lemma X3_worker_fallback_witness :
  let r := init {| this := new_TabSafeTimers; host := Example.strict_csp |} in
  fst r = Normal true /\
  worker (this (snd r)) = Some DataURL /\
  workerUrl (this (snd r)) = Some "blob:mock-url"%string.
Proof.
  destruct (X3_worker_fallback new_TabSafeTimers Example.strict_csp
              eq_refl eq_refl eq_refl (or_intror eq_refl) eq_refl)
    as (H1 & _ & H2 & H3 & _).
  exact (conj H1 (conj H2 H3)).
Defined.

(** X4 at a concrete input: the host in which no worker can be made. *)
Lemma X4_failed_init_keeps_object_url_witness :
  let r := init {| this := new_TabSafeTimers;
                   host := Example.no_worker_at_all |} in
  trace (host (snd (destroy (snd r)))) =
    [CreateObjectURL "blob:mock-url"%string] /\
  workerUrl (this (snd (destroy (snd r)))) = Some "blob:mock-url"%string.
Proof.
  destruct (X4_failed_init_keeps_object_url new_TabSafeTimers
              Example.no_worker_at_all "blob:mock-url" "SecurityError"
              eq_refl eq_refl eq_refl eq_refl eq_refl eq_refl)
    as (_ & H2 & H3 & H4).
  cbv zeta. rewrite H4. cbn [snd]. exact (conj H3 H2).
Defined.

(** X5 at a concrete input: the Coordinator with two timers. *)
Lemma X5_destroy_twice_witness :
  destroy (snd (destroy Example.two_timers)) =
  (Normal tt, snd (destroy Example.two_timers)).
Proof.
  destruct (X5_destroy_twice Example.two_timers eq_refl) as (_ & _ & H).
  exact H.
Defined.

(** X6 at a concrete input: the Coordinator with two timers. *)
Lemma X6_destroy_effects_witness :
  let s' := snd (destroy Example.two_timers) in
  skipn 4 (trace (host s')) =
    [PostMessage (Request ClearInterval 1 None);
     PostMessage (Request ClearInterval 2 None);
     Terminate (BlobURL "blob:mock-url");
     RevokeObjectURL "blob:mock-url"] /\
  callbacks (this s') = [] /\ idCounter (this s') = 2.
Proof.
  destruct (X6_destroy_effects Example.two_timers
              (BlobURL "blob:mock-url") (snapshot 4)
              eq_refl eq_refl eq_refl) as (_ & H2 & H3 & _).
  cbv zeta. rewrite H2, H3. repeat split.
Defined.

(** X7 at a concrete input: [setTimeout("code", undefined)] through the
    override after the Coordinator was destroyed. *)
Lemma X7_overrides_after_destroy_witness :
  let s' := snd (destroy Example.one_interval) in
  invocations (trace (host (snd
    (window_setTimeout Example.source_text Example.quiet
       (VStr "code") VUndefined [] s')))) =
  [(5%nat, [VStr "code"; VNum (Zero false)])].
Proof.
  destruct (X7_overrides_after_destroy Example.source_text Example.quiet
              Example.one_interval (snapshot 4)
              (VStr "code") VUndefined VUndefined [] eq_refl eq_refl)
    as (_ & H & _).
  cbv zeta. rewrite H. reflexivity.
Defined.

(** X8 at a concrete input: the browser host. *)
Lemma X8_overrides_installed_witness :
  window (host Example.fresh) = overrides 4 /\
  nth_error (funs (host Example.fresh)) 8 = Some (Override SetInterval).
Proof.
  destruct (X8_overrides_installed new_TabSafeTimers Example.browser
              eq_refl eq_refl) as (H & _).
  split; [reflexivity | exact H].
Defined.

(** ** What the Coordinator keeps between calls *)

Module JsMapOrder.
Section Order.
Context {V : Type}.
Implicit Types (m : JsMap.t V) (k : Z) (v : V).

Lemma keys_delete m k :
  JsMap.keys (JsMap.delete m k) =
  filter (fun k' => negb (k' =? k)) (JsMap.keys m).
Proof.
  induction m as [|[k' v'] r IH]; simpl; [reflexivity|].
  destruct (k' =? k); simpl; now rewrite IH.
Qed.

Lemma get_none_keys m k : ~ In k (JsMap.keys m) -> JsMap.get m k = None.
Proof.
  induction m as [|[k' v'] r IH]; simpl; [reflexivity|].
  intros H. destruct (Z.eqb_spec k' k); [tauto|]. apply IH. tauto.
Qed.

Lemma keys_set_new m k v :
  ~ In k (JsMap.keys m) -> JsMap.keys (JsMap.set m k v) = JsMap.keys m ++ [k].
Proof.
  induction m as [|[k' v'] r IH]; simpl; [reflexivity|].
  intros H. destruct (Z.eqb_spec k' k); [tauto|].
  simpl. rewrite IH; [reflexivity | tauto].
Qed.

Lemma get_delete_some m k k' v :
  JsMap.get (JsMap.delete m k) k' = Some v ->
  k' <> k /\ JsMap.get m k' = Some v.
Proof.
  intros H. destruct (Z.eq_dec k' k) as [->|Hne].
  - now rewrite JsMapFacts.get_delete_same in H.
  - now rewrite JsMapFacts.get_delete_other in H.
Qed.

Lemma get_set_some m k k' v v' :
  JsMap.get (JsMap.set m k v) k' = Some v' ->
  (k' = k /\ v' = v) \/ (k' <> k /\ JsMap.get m k' = Some v').
Proof.
  intros H. destruct (Z.eq_dec k' k) as [->|Hne].
  - rewrite JsMapFacts.get_set_same in H. left. split; congruence.
  - rewrite JsMapFacts.get_set_other in H by assumption. now right.
Qed.
End Order.

Lemma sorted_filter (p : Z -> bool) l :
  StronglySorted Z.lt l -> StronglySorted Z.lt (filter p l).
Proof.
  induction 1 as [|a l Hs IH Hf]; simpl; [constructor|].
  destruct (p a); [|exact IH].
  constructor; [exact IH|].
  rewrite Forall_forall in *. intros x Hx.
  apply filter_In in Hx. now apply Hf.
Qed.

Lemma sorted_snoc l k :
  StronglySorted Z.lt l -> Forall (fun x => x < k) l ->
  StronglySorted Z.lt (l ++ [k]).
Proof.
  induction 1 as [|a l Hs IH Hf]; intros Hk; simpl.
  - repeat constructor.
  - inversion Hk as [|? ? Ha Hl]; subst.
    constructor; [now apply IH|].
    apply Forall_app. split; [exact Hf | now constructor].
Qed.

Lemma sorted_NoDup l : StronglySorted Z.lt l -> NoDup l.
Proof.
  induction 1 as [|a l Hs IH Hf]; constructor; [|exact IH].
  intros Hin. rewrite Forall_forall in Hf. specialize (Hf _ Hin). lia.
Qed.
End JsMapOrder.

Section Invariants.
Variable source_text : fref -> string.
Variable callee : fref -> list value -> list event -> outcome value.

Ltac split_cases :=
  repeat match goal with
  | |- context [match ?x with _ => _ end] =>
      lazymatch x with
      | context [match _ with _ => _ end] => fail
      | _ => destruct x; simpl
      end
  end.

(** What one call or one notification can do to the Coordinator object:
    nothing, remove one entry, or hand out the next id and store an
    entry under it. *)
Lemma perform_this a s :
  let o := this s in
  let o' := this (perform source_text callee a s) in
  o' = o \/
  (exists k, o' = with_callbacks (JsMap.delete (callbacks o) k) o) \/
  (exists e, o' = with_callbacks
                    (JsMap.set (callbacks o) (idCounter o + 1) e)
                    (with_idCounter (idCounter o + 1) o)).
Proof.
  destruct s as [[i wk u cbs cnt nat0] [hw hW bu bw dw win fs tr]].
  destruct a; simpl;
    unfold window_setInterval, window_setTimeout, window_clearInterval,
      window_clearTimeout, onmessage, onerror, cancel, register,
      call_native, call, postMessage, emit, update_this, update_host,
      bind, get_this, ret, throw; simpl;
    split_cases;
    first [ left; reflexivity
          | right; left; eexists; reflexivity
          | right; right; eexists; reflexivity ].
Qed.

Lemma perform_ids a s :
  ids_in_order (this s) ->
  ids_in_order (this (perform source_text callee a s)) /\
  idCounter (this s) <= idCounter (this (perform source_text callee a s)).
Proof.
  intros (H0 & Hs & Hf).
  destruct (perform_this a s) as [E | [[k E] | [e E]]]; rewrite E; clear E.
  - split; [repeat split; assumption | lia].
  - unfold ids_in_order. simpl. rewrite JsMapOrder.keys_delete.
    split; [split; [|split]|lia].
    + exact H0.
    + now apply JsMapOrder.sorted_filter.
    + rewrite Forall_forall in *. intros x Hx.
      apply filter_In in Hx. now apply Hf.
  - unfold ids_in_order. simpl.
    assert (Hnew : ~ In (idCounter (this s) + 1)
                        (JsMap.keys (callbacks (this s)))).
    { intros Hin. rewrite Forall_forall in Hf. specialize (Hf _ Hin). lia. }
    rewrite (JsMapOrder.keys_set_new _ _ _ Hnew).
    split; [split; [|split]|lia].
    + lia.
    + apply JsMapOrder.sorted_snoc; [assumption|].
      eapply Forall_impl; [|exact Hf]. simpl. intros; lia.
    + apply Forall_app. split.
      * eapply Forall_impl; [|exact Hf]. simpl. intros; lia.
      * constructor; [lia | constructor].
Qed.

Lemma run_ids l s :
  ids_in_order (this s) ->
  ids_in_order (this (run source_text callee l s)) /\
  idCounter (this s) <= idCounter (this (run source_text callee l s)).
Proof.
  revert s. induction l as [|a l IH]; intros s H; simpl.
  - split; [assumption | lia].
  - destruct (perform_ids a s H) as [H1 H2].
    destruct (IH _ H1) as [H3 H4]. split; [assumption | lia].
Qed.

(** X9: whatever calls and notifications follow, the ids of the mapping
    stay the ones handed out so far (from 1 to the counter), in the
    order they were handed out and without repetition, and the id the
    next registration will take is not in the mapping: a registration
    never overwrites an entry. *)
Theorem X9_ids_in_order (s : St) (acts : list action) :
  ids_in_order (this s) ->
  let s' := run source_text callee acts s in
  ids_in_order (this s') /\
  NoDup (JsMap.keys (callbacks (this s'))) /\
  JsMap.has (callbacks (this s')) (idCounter (this s') + 1) = false.
Proof.
  intros H s'. destruct (run_ids acts s H) as [H1 _]. fold s' in H1.
  split; [exact H1|]. destruct H1 as (H0 & Hs & Hf). split.
  - now apply JsMapOrder.sorted_NoDup.
  - apply JsMapFacts.has_false_get, JsMapOrder.get_none_keys.
    intros Hin. rewrite Forall_forall in Hf. specialize (Hf _ Hin). lia.
Qed.

(** X10: ids are never reused within a Coordinator's lifetime.  Of two
    registrations of either kind (two timeouts, two intervals, or one of
    each in either order), with any calls and notifications in between,
    each returns the id after the counter and leaves the counter at the
    id it returned, and the later one returns a strictly greater id. *)
Theorem X10_ids_increase (s : St) (acts : list action) (k k' : kind)
        (f f' : fref) (d d' : value) (rest rest' : list value) :
  active (this s) = true ->
  let r1 := window_start source_text callee k (VFun f) d rest s in
  let s2 := run source_text callee acts (snd r1) in
  let r2 := window_start source_text callee k' (VFun f') d' rest' s2 in
  let i1 := idCounter (this s) + 1 in
  let i2 := idCounter (this s2) + 1 in
  fst r1 = Normal (VNum (of_Z i1)) /\
  idCounter (this (snd r1)) = i1 /\
  fst r2 = Normal (VNum (of_Z i2)) /\
  idCounter (this (snd r2)) = i2 /\
  i1 < i2.
Proof.
  intros Ha. cbv zeta.
  rewrite (window_start_eq _ _ _ _ _ _ _ Ha). cbn [fst snd].
  set (s1 := registered source_text k (start_command k) f
               (default_delay d) rest s).
  assert (Ha1 : active (this s1) = true).
  { revert Ha. unfold s1, active, registered. simpl. easy. }
  pose proof (run_active source_text callee acts _ Ha1) as Ha2.
  rewrite (window_start_eq _ _ _ _ _ _ _ Ha2). cbn [fst snd].
  split; [reflexivity|]. split; [reflexivity|].
  split; [reflexivity|]. split; [reflexivity|].
  assert (Hmono : forall l t,
            idCounter (this t) <=
            idCounter (this (run source_text callee l t))).
  { induction l as [|a l IH]; intros t; simpl; [lia|].
    specialize (IH (perform source_text callee a t)).
    destruct (perform_this a t) as [E | [[k0 E] | [e E]]];
      rewrite E in IH; simpl in IH; lia. }
  specialize (Hmono acts s1).
  assert (idCounter (this s1) = idCounter (this s) + 1) by reflexivity.
  lia.
Qed.








End Invariants.

(** X9 at a concrete input: two registrations, a fired timeout and a
    cancellation in the fresh Coordinator. *)
Lemma X9_ids_in_order_witness :
  let acts := [CallSetTimeout (VFun Example.cb) Example.hundred [];
               CallSetInterval (VFun Example.cb) Example.hundred [];
               Notify (tick 1);
               CallSetTimeout (VFun Example.cb') Example.hundred [];
               CallClearInterval (VNum (of_Z 2))] in
  let s' := run Example.source_text Example.quiet acts Example.fresh in
  NoDup (JsMap.keys (callbacks (this s'))) /\
  JsMap.has (callbacks (this s')) (idCounter (this s') + 1) = false.
Proof.
  intros acts.
  destruct (X9_ids_in_order Example.source_text Example.quiet
              Example.fresh acts) as (_ & H1 & H2).
  - unfold ids_in_order. simpl. split; [lia|]. split; constructor.
  - exact (conj H1 H2).
Defined.

(** X10 at concrete inputs: in the fresh Coordinator, two timeouts, the
    second registered after the first has fired; and two intervals. *)
Lemma X10_ids_increase_witness :
  let start := window_start Example.source_text Example.quiet in
  let r1 := start timeout (VFun Example.cb) Example.hundred []
              Example.fresh in
  let s2 := run Example.source_text Example.quiet [Notify (tick 1)]
              (snd r1) in
  let r2 := start timeout (VFun Example.cb') Example.hundred [] s2 in
  let r1' := start interval (VFun Example.cb) Example.hundred []
               Example.fresh in
  let s2' := run Example.source_text Example.quiet [] (snd r1') in
  let r2' := start interval (VFun Example.cb') Example.hundred [] s2' in
  (fst r1 = Normal (VNum (of_Z 1)) /\ fst r2 = Normal (VNum (of_Z 2))) /\
  (fst r1' = Normal (VNum (of_Z 1)) /\ fst r2' = Normal (VNum (of_Z 2))).
Proof.
  destruct (X10_ids_increase Example.source_text Example.quiet Example.fresh
              [Notify (tick 1)] timeout timeout Example.cb Example.cb'
              Example.hundred Example.hundred [] [] eq_refl)
    as (H1 & _ & H2 & _).
  destruct (X10_ids_increase Example.source_text Example.quiet Example.fresh
              [] interval interval Example.cb Example.cb'
              Example.hundred Example.hundred [] [] eq_refl)
    as (H3 & _ & H4 & _).
  exact (conj (conj H1 H2) (conj H3 H4)).
Defined.




(** ** The worker *)

Module WorkerInvariants.
Import Worker WorkerRun.

Lemma sorted_map_filter (p : armed_timer -> bool) l :
  StronglySorted Z.lt (map handle l) ->
  StronglySorted Z.lt (map handle (filter p l)).
Proof.
  induction l as [|a l IH]; simpl; intros Hs; [constructor|].
  inversion Hs as [|? ? Hs' Hf]; subst.
  destruct (p a); [|now apply IH].
  simpl. constructor; [now apply IH|].
  rewrite Forall_forall in *. intros x Hx.
  apply in_map_iff in Hx. destruct Hx as (t & <- & Ht).
  apply filter_In in Ht. apply Hf, in_map, Ht.
Qed.

Lemma sorted_map_snoc l t :
  StronglySorted Z.lt (map handle l) ->
  Forall (fun x => handle x < handle t) l ->
  StronglySorted Z.lt (map handle (l ++ [t])).
Proof.
  intros Hs Hf. rewrite map_app. simpl.
  apply JsMapOrder.sorted_snoc; [assumption|].
  rewrite Forall_forall in *. intros x Hx.
  apply in_map_iff in Hx. destruct Hx as (t' & <- & Ht'). now apply Hf.
Qed.

(** Two armed timers with the same handle are the same timer. *)
Lemma same_handle l t1 t2 :
  StronglySorted Z.lt (map handle l) ->
  In t1 l -> In t2 l -> handle t1 = handle t2 -> t1 = t2.
Proof.
  induction l as [|a l IH]; simpl; intros Hs H1 H2 He; [contradiction|].
  inversion Hs as [|? ? Hs' Hf]; subst. rewrite Forall_forall in Hf.
  destruct H1 as [<-|H1], H2 as [<-|H2].
  - reflexivity.
  - specialize (Hf _ (in_map handle _ _ H2)). lia.
  - specialize (Hf _ (in_map handle _ _ H1)). lia.
  - now apply IH.
Qed.

Lemma in_disarm t h l : In t (disarm h l) <-> In t l /\ handle t <> h.
Proof.
  unfold disarm. rewrite filter_In.
  destruct (Z.eqb_spec (handle t) h); simpl; intuition congruence.
Qed.

Lemma disarm_fresh h l :
  Forall (fun t => handle t < h) l -> disarm h l = l.
Proof.
  induction 1 as [|a l Ha Hl IH]; simpl; [reflexivity|].
  destruct (Z.eqb_spec (handle a) h); [lia|]. simpl. now rewrite IH.
Qed.

Lemma find_fresh h l :
  Forall (fun t => handle t < h) l ->
  find (fun t => handle t =? h) l = None.
Proof.
  induction 1 as [|a l Ha Hl IH]; simpl; [reflexivity|].
  destruct (Z.eqb_spec (handle a) h); [lia | exact IH].
Qed.

Lemma find_snoc h l t :
  Forall (fun t => handle t < h) l -> handle t = h ->
  find (fun t => handle t =? h) (l ++ [t]) = Some t.
Proof.
  induction 1 as [|a l Ha Hl IH]; simpl; intros Ht.
  - now rewrite Ht, Z.eqb_refl.
  - destruct (Z.eqb_spec (handle a) h); [lia | now apply IH].
Qed.

Lemma wf_below w :
  wf w -> Forall (fun t => handle t < next_handle w) (armed w).
Proof.
  intros (_ & _ & Hf & _). eapply Forall_impl; [|exact Hf].
  simpl. intros; lia.
Qed.

Lemma wf_start : wf start.
Proof.
  unfold wf, start. simpl. repeat split; try constructor; try lia;
    intros id h H; discriminate H.
Qed.

(** Arming a timer keeps the invariant. *)
Lemma wf_arm k id dl w :
  wf w ->
  let t := {| handle := next_handle w; timer_kind := k; timer_id := id;
              timer_delay := dl |} in
  0 < next_handle w + 1 /\
  StronglySorted Z.lt (map handle (armed w ++ [t])) /\
  Forall (fun x => 0 < handle x < next_handle w + 1) (armed w ++ [t]).
Proof.
  intros Hw t. pose proof (wf_below w Hw) as Hb.
  destruct Hw as (H0 & Hs & Hf & _).
  split; [lia|]. split.
  - apply sorted_map_snoc; assumption.
  - apply Forall_app. split.
    + eapply Forall_impl; [|exact Hf]. simpl. intros; lia.
    + constructor; [simpl; lia | constructor].
Qed.

Lemma wf_onmessage e w : wf w -> wf (onmessage e w).
Proof.
  intros Hw. pose proof Hw as (H0 & Hs & Hf & Hi & Ht).
  destruct e as [c id dl]. unfold onmessage. simpl.
  destruct c.
  - (* setInterval *)
    destruct (wf_arm interval id dl w Hw) as (A0 & As & Af).
    unfold wf. simpl. split; [exact A0|]. split; [exact As|].
    split; [exact Af|]. split.
    + intros id' h' Hg. apply JsMapOrder.get_set_some in Hg.
      destruct Hg as [[-> ->] | [Hne Hg]].
      * eexists. split; [apply in_or_app; right; now left|]. repeat split.
      * destruct (Hi _ _ Hg) as (t' & Hin & H).
        exists t'. split; [apply in_or_app; now left | exact H].
    + intros id' h' Hg. destruct (Ht _ _ Hg) as (t' & Hin & H).
      exists t'. split; [apply in_or_app; now left | exact H].
  - (* setTimeout *)
    destruct (wf_arm timeout id dl w Hw) as (A0 & As & Af).
    unfold wf. simpl. split; [exact A0|]. split; [exact As|].
    split; [exact Af|]. split.
    + intros id' h' Hg. destruct (Hi _ _ Hg) as (t' & Hin & H).
      exists t'. split; [apply in_or_app; now left | exact H].
    + intros id' h' Hg. apply JsMapOrder.get_set_some in Hg.
      destruct Hg as [[-> ->] | [Hne Hg]].
      * eexists. split; [apply in_or_app; right; now left|]. repeat split.
      * destruct (Ht _ _ Hg) as (t' & Hin & H).
        exists t'. split; [apply in_or_app; now left | exact H].
  - (* clearInterval *)
    destruct (JsMap.get (intervalMap w) id) as [h|] eqn:Hg; [|exact Hw].
    destruct (truthy h); [|exact Hw].
    destruct (Hi _ _ Hg) as (t & Hin & Hh & Hid & Hk).
    unfold wf. simpl. split; [exact H0|].
    split; [now apply sorted_map_filter|].
    split.
    { rewrite Forall_forall in *. intros x Hx.
      apply in_disarm in Hx. now apply Hf. }
    split.
    + intros id' h' Hg'. apply JsMapOrder.get_delete_some in Hg'.
      destruct Hg' as [Hne Hg'].
      destruct (Hi _ _ Hg') as (t' & Hin' & Hh' & Hid' & Hk').
      exists t'. split; [|auto]. apply in_disarm. split; [exact Hin'|].
      intros E. assert (t' = t)
        by (apply (same_handle (armed w)); auto; congruence).
      congruence.
    + intros id' h' Hg'.
      destruct (Ht _ _ Hg') as (t' & Hin' & Hh' & Hid' & Hk').
      exists t'. split; [|auto]. apply in_disarm. split; [exact Hin'|].
      intros E. assert (t' = t)
        by (apply (same_handle (armed w)); auto; congruence).
      congruence.
  - (* clearTimeout *)
    destruct (JsMap.get (timeoutMap w) id) as [h|] eqn:Hg; [|exact Hw].
    destruct (truthy h); [|exact Hw].
    destruct (Ht _ _ Hg) as (t & Hin & Hh & Hid & Hk).
    unfold wf. simpl. split; [exact H0|].
    split; [now apply sorted_map_filter|].
    split.
    { rewrite Forall_forall in *. intros x Hx.
      apply in_disarm in Hx. now apply Hf. }
    split.
    + intros id' h' Hg'.
      destruct (Hi _ _ Hg') as (t' & Hin' & Hh' & Hid' & Hk').
      exists t'. split; [|auto]. apply in_disarm. split; [exact Hin'|].
      intros E. assert (t' = t)
        by (apply (same_handle (armed w)); auto; congruence).
      congruence.
    + intros id' h' Hg'. apply JsMapOrder.get_delete_some in Hg'.
      destruct Hg' as [Hne Hg'].
      destruct (Ht _ _ Hg') as (t' & Hin' & Hh' & Hid' & Hk').
      exists t'. split; [|auto]. apply in_disarm. split; [exact Hin'|].
      intros E. assert (t' = t)
        by (apply (same_handle (armed w)); auto; congruence).
      congruence.
Qed.

Lemma wf_fire h w : wf w -> wf (fire h w).
Proof.
  intros Hw. pose proof Hw as (H0 & Hs & Hf & Hi & Ht).
  unfold fire.
  destruct (find (fun t => handle t =? h) (armed w)) as [t|] eqn:Hfind;
    [|exact Hw].
  apply find_some in Hfind. destruct Hfind as [Hin Hh].
  apply Z.eqb_eq in Hh.
  destruct (timer_kind t) eqn:Hk.
  - unfold wf. simpl. repeat split; assumption.
  - unfold wf. simpl. split; [exact H0|].
    split; [now apply sorted_map_filter|].
    split.
    { rewrite Forall_forall in *. intros x Hx.
      apply in_disarm in Hx. now apply Hf. }
    split.
    + intros id' h' Hg'.
      destruct (Hi _ _ Hg') as (t' & Hin' & Hh' & Hid' & Hk').
      exists t'. split; [|auto]. apply in_disarm. split; [exact Hin'|].
      intros E. assert (t' = t)
        by (apply (same_handle (armed w)); auto; congruence).
      congruence.
    + intros id' h' Hg'. apply JsMapOrder.get_delete_some in Hg'.
      destruct Hg' as [Hne Hg'].
      destruct (Ht _ _ Hg') as (t' & Hin' & Hh' & Hid' & Hk').
      exists t'. split; [|auto]. apply in_disarm. split; [exact Hin'|].
      intros E. assert (t' = t)
        by (apply (same_handle (armed w)); auto; congruence).
      congruence.
Qed.

Lemma wf_run l w : wf w -> wf (run l w).
Proof.
  revert w. induction l as [|i l IH]; intros w Hw; simpl; [exact Hw|].
  apply IH. destruct i; [now apply wf_onmessage | now apply wf_fire].
Qed.

(** X14: in every state the worker can reach from its start, by any
    requests and any expiries, an id stored in one of the two mappings
    holds a handle that passes the test [if (handle)] and belongs to an
    armed timer of that kind posting that id; so a [clearInterval]
    request removes the id from the interval mapping and disarms its
    timer, and a [clearTimeout] request does the same for the timeout
    mapping, whether or not the id was there. *)
Theorem X14_worker_cancel_always_works (l : list input) (id : Z) :
  let w := run l start in
  let wi := onmessage (Request ClearInterval id None) w in
  let wt := onmessage (Request ClearTimeout id None) w in
  (forall h, JsMap.get (intervalMap w) id = Some h ->
     truthy h = true /\ points_to interval id h w /\
     forall t, In t (armed wi) -> handle t <> h) /\
  (forall h, JsMap.get (timeoutMap w) id = Some h ->
     truthy h = true /\ points_to timeout id h w /\
     forall t, In t (armed wt) -> handle t <> h) /\
  JsMap.get (intervalMap wi) id = None /\
  JsMap.get (timeoutMap wt) id = None.
Proof.
  intros w wi wt.
  assert (Hw : wf w) by (apply wf_run, wf_start).
  pose proof Hw as (H0 & Hs & Hf & Hi & Ht).
  assert (Htruthy : forall k h, points_to k id h w -> truthy h = true).
  { intros k h (t & Hin & Hh & _). rewrite Forall_forall in Hf.
    specialize (Hf _ Hin). unfold truthy.
    destruct (Z.eqb_spec h 0); [lia | reflexivity]. }
  split; [|split; [|split]].
  - intros h Hg. pose proof (Hi _ _ Hg) as Hp.
    split; [now apply (Htruthy interval)|]. split; [exact Hp|].
    unfold wi, onmessage. simpl. rewrite Hg, (Htruthy _ _ Hp). simpl.
    intros t Hin. now apply in_disarm in Hin.
  - intros h Hg. pose proof (Ht _ _ Hg) as Hp.
    split; [now apply (Htruthy timeout)|]. split; [exact Hp|].
    unfold wt, onmessage. simpl. rewrite Hg, (Htruthy _ _ Hp). simpl.
    intros t Hin. now apply in_disarm in Hin.
  - unfold wi, onmessage. simpl.
    destruct (JsMap.get (intervalMap w) id) as [h|] eqn:Hg; [|exact Hg].
    rewrite (Htruthy _ _ (Hi _ _ Hg)). simpl.
    apply JsMapFacts.get_delete_same.
  - unfold wt, onmessage. simpl.
    destruct (JsMap.get (timeoutMap w) id) as [h|] eqn:Hg; [|exact Hg].
    rewrite (Htruthy _ _ (Ht _ _ Hg)). simpl.
    apply JsMapFacts.get_delete_same.
Qed.

(** X15: starting a timer and cancelling it with the request of the same
    kind leaves the worker's armed timers as they were, whatever state
    the worker had reached: the timer that was armed is disarmed, its
    id is in neither mapping's entry for it, nothing was posted, and the
    expiry of its handle does nothing. *)
Theorem X15_worker_start_then_cancel (l : list input) (id : Z)
        (dl : option Z) :
  let w := run l start in
  let h := next_handle w in
  let wi := run [Receive (Request SetInterval id dl);
                 Receive (Request ClearInterval id None)] w in
  let wt := run [Receive (Request SetTimeout id dl);
                 Receive (Request ClearTimeout id None)] w in
  (armed wi = armed w /\ JsMap.get (intervalMap wi) id = None /\
   timeoutMap wi = timeoutMap w /\ posted wi = posted w /\
   fire h wi = wi) /\
  (armed wt = armed w /\ JsMap.get (timeoutMap wt) id = None /\
   intervalMap wt = intervalMap w /\ posted wt = posted w /\
   fire h wt = wt).
Proof.
  cbv zeta. pose proof (wf_run l start wf_start) as Hw.
  generalize dependent (run l start). intros w Hw.
  pose proof (wf_below w Hw) as Hb. destruct Hw as (H0 & _).
  assert (Ht : truthy (next_handle w) = true).
  { unfold truthy. destruct (Z.eqb_spec (next_handle w) 0);
      [lia | reflexivity]. }
  assert (Hd : forall t, handle t = next_handle w ->
            disarm (next_handle w) (armed w ++ [t]) = armed w).
  { intros t Hh. unfold disarm. rewrite filter_app. simpl.
    rewrite Hh, Z.eqb_refl. simpl. rewrite app_nil_r.
    now apply (disarm_fresh (next_handle w)). }
  assert (Hfind : find (fun t => handle t =? next_handle w) (armed w) = None)
    by now apply find_fresh.
  split.
  - unfold run, step, onmessage. simpl.
    rewrite JsMapFacts.get_set_same, Ht. simpl.
    rewrite Hd by reflexivity. unfold fire. simpl. rewrite Hfind.
    repeat split. apply JsMapFacts.get_delete_same.
  - unfold run, step, onmessage. simpl.
    rewrite JsMapFacts.get_set_same, Ht. simpl.
    rewrite Hd by reflexivity. unfold fire. simpl. rewrite Hfind.
    repeat split. apply JsMapFacts.get_delete_same.
Qed.

Lemma fire_interval h t w :
  find (fun t => handle t =? h) (armed w) = Some t ->
  timer_kind t = interval ->
  fire h w =
  {| intervalMap := intervalMap w; timeoutMap := timeoutMap w;
     next_handle := next_handle w; armed := armed w;
     posted := posted w ++ [{| msg_type := "tick"; msg_id := timer_id t |}]
  |}.
Proof. intros Hf Hk. unfold fire. now rewrite Hf, Hk. Qed.

Lemma fire_interval_many n h t w :
  find (fun t => handle t =? h) (armed w) = Some t ->
  timer_kind t = interval ->
  run (repeat (Expire h) n) w =
  {| intervalMap := intervalMap w; timeoutMap := timeoutMap w;
     next_handle := next_handle w; armed := armed w;
     posted := posted w ++
               repeat {| msg_type := "tick"; msg_id := timer_id t |} n |}.
Proof.
  intros Hf Hk. revert w Hf. induction n as [|n IH]; intros w Hf.
  - simpl. rewrite app_nil_r. now destruct w.
  - cbn [repeat run fold_left step].
    rewrite (fire_interval h t w Hf Hk).
    fold (run (repeat (Expire h) n)). rewrite IH by exact Hf.
    simpl. now rewrite <- app_assoc.
Qed.

(** A timeout is started and its handle expires. *)
Lemma run_timeout_once w id dl :
  wf w ->
  run [Receive (Request SetTimeout id dl); Expire (next_handle w)] w =
  {| intervalMap := intervalMap w;
     timeoutMap :=
       JsMap.delete (JsMap.set (timeoutMap w) id (next_handle w)) id;
     next_handle := next_handle w + 1;
     armed := armed w;
     posted := posted w ++ [{| msg_type := "tick"; msg_id := id |}] |}.
Proof.
  intros Hw. pose proof (wf_below w Hw) as Hb.
  unfold run, step, onmessage, fire. simpl.
  rewrite (find_snoc (next_handle w) (armed w)) by auto. simpl.
  unfold disarm. rewrite filter_app. simpl. rewrite Z.eqb_refl. simpl.
  rewrite app_nil_r. fold (disarm (next_handle w) (armed w)).
  now rewrite (disarm_fresh (next_handle w)) by assumption.
Qed.

(** X16: in any state the worker has reached, a timeout that is started
    posts exactly one ['tick'] with its id when its handle expires, is
    then gone from the timeout mapping, and a second expiry of the
    handle does nothing; an interval that is started posts one ['tick']
    with its id at each of [n] expiries, and after [clearInterval] an
    expiry posts nothing more. *)
Theorem X16_worker_firing (l : list input) (id : Z) (dl : option Z)
        (n : nat) :
  let w := run l start in
  let h := next_handle w in
  let once := run [Receive (Request SetTimeout id dl); Expire h] w in
  let many :=
    run (Receive (Request SetInterval id dl) :: repeat (Expire h) n) w in
  let stopped := step (Receive (Request ClearInterval id None)) many in
  posted once = posted w ++ [{| msg_type := "tick"; msg_id := id |}] /\
  JsMap.get (timeoutMap once) id = None /\
  fire h once = once /\
  posted many =
    posted w ++ repeat {| msg_type := "tick"; msg_id := id |} n /\
  JsMap.get (intervalMap many) id = Some h /\
  fire h stopped = stopped /\
  posted stopped = posted many.
Proof.
  cbv zeta. pose proof (wf_run l start wf_start) as Hw.
  generalize dependent (run l start). intros w Hw.
  pose proof Hw as Hw'.
  pose proof (wf_below w Hw) as Hb. destruct Hw as (H0 & _).
  assert (Ht : truthy (next_handle w) = true).
  { unfold truthy. destruct (Z.eqb_spec (next_handle w) 0);
      [lia | reflexivity]. }
  assert (Hfresh :
            find (fun t => handle t =? next_handle w) (armed w) = None)
    by now apply find_fresh.
  assert (Hd : forall t, handle t = next_handle w ->
            disarm (next_handle w) (armed w ++ [t]) = armed w).
  { intros t Hh. unfold disarm. rewrite filter_app. simpl.
    rewrite Hh, Z.eqb_refl. simpl. rewrite app_nil_r.
    now apply (disarm_fresh (next_handle w)). }
  assert (Hsnoc : forall t, handle t = next_handle w ->
            find (fun t => handle t =? next_handle w) (armed w ++ [t]) =
            Some t)
    by (intros t Hh; now apply find_snoc).
  pose proof (run_timeout_once w id dl Hw') as Eonce.
  rewrite Eonce. clear Eonce.
  split; [|split; [|split]].
  - reflexivity.
  - simpl. apply JsMapFacts.get_delete_same.
  - unfold fire. simpl. now rewrite Hfresh.
  - assert (Em :
      run (Receive (Request SetInterval id dl)
             :: repeat (Expire (next_handle w)) n) w =
      run (repeat (Expire (next_handle w)) n)
          (onmessage (Request SetInterval id dl) w)) by reflexivity.
    rewrite (fire_interval_many n (next_handle w)
               {| handle := next_handle w; timer_kind := interval;
                  timer_id := id; timer_delay := dl |}) in Em.
    2:{ unfold onmessage. simpl. now apply Hsnoc. }
    2:{ reflexivity. }
    rewrite Em. clear Em.
    split; [reflexivity|].
    split; [simpl; apply JsMapFacts.get_set_same|].
    unfold step, onmessage. simpl.
    rewrite !JsMapFacts.get_set_same, Ht. simpl.
    rewrite !Hd by reflexivity. split; [|reflexivity].
    unfold fire. simpl. now rewrite Hfresh.
Qed.

End WorkerInvariants.

(** ** The Coordinator and the worker together *)

Section EndToEnd.
Variable source_text : fref -> string.
Variable callee : fref -> list value -> list event -> outcome value.



End EndToEnd.


(** ** The singleton and the exported functions *)

Section SingletonMore.

(** The capabilities of the host are not changed by [init]. *)
Lemma init_keeps_capable s : capable (host (snd (init s))) = capable (host s).
Proof.
  destruct s as [[i wk u cbs cnt nat0] [hw hW bu bw dw win fs tr]].
  unfold init, create_worker, overrideGlobalTimers, bind, get_this, get_host,
    alloc, update_this, update_host, emit, ret, throw; simpl.
  repeat match goal with
  | |- context [match ?x with _ => _ end] =>
      lazymatch x with
      | context [match _ with _ => _ end] => fail
      | _ => destruct x; simpl
      end
  end; reflexivity.
Qed.

(** A failed [init] throws an [Error] and leaves the object Inactive. *)
Lemma init_failure o h :
  isInitialized o = false ->
  capable h = false ->
  (exists m, fst (init {| this := o; host := h |}) = Abrupt (Error m)) /\
  isInitialized (this (snd (init {| this := o; host := h |}))) = false /\
  window (host (snd (init {| this := o; host := h |}))) = window h.
Proof.
  intros Hi Hc. unfold capable in Hc.
  destruct o as [i w u cbs cnt nat0], h as [hw hW bu bw dw win fs tr].
  simpl in *. subst i.
  unfold init, create_worker, bind, get_this, get_host, alloc, update_this,
    update_host, emit, ret, throw; simpl.
  destruct hw, hW; simpl in *; try (repeat split; eauto; fail).
  destruct bu as [url|]; [destruct bw|]; simpl in *;
    destruct dw as [m|]; try discriminate; simpl; repeat split; eauto.
Qed.

(** [initTabSafeTimers] with no instance: it constructs a Coordinator,
    puts it in [instance] and runs [init] on it. *)
Lemma initTabSafeTimers_none h :
  let s := init {| this := new_TabSafeTimers;
                   host := with_trace (trace h ++ [Construct]) h |} in
  initTabSafeTimers {| instance := None; mhost := h |} =
  match fst s with
  | Normal true =>
      (Normal (Some (this (snd s))),
       {| instance := Some (this (snd s)); mhost := host (snd s) |})
  | Normal false =>
      (Abrupt (Error message_init_failed),
       {| instance := None; mhost := host (snd s) |})
  | Abrupt e =>
      (Abrupt e,
       {| instance := Some (this (snd s)); mhost := host (snd s) |})
  end.
Proof.
  unfold initTabSafeTimers, bind, get_instance, emit_module, set_instance,
    on_instance. cbn [instance mhost].
  destruct (init {| this := new_TabSafeTimers;
                    host := with_trace (trace h ++ [Construct]) h |})
    as [[[|]|e] s']; reflexivity.
Qed.

Lemma destroyTabSafeTimers_some o h :
  destroyTabSafeTimers {| instance := Some o; mhost := h |} =
  match fst (destroy {| this := o; host := h |}) with
  | Normal _ =>
      (Normal tt,
       {| instance := None;
          mhost := host (snd (destroy {| this := o; host := h |})) |})
  | Abrupt e =>
      (Abrupt e,
       {| instance := Some (this (snd (destroy {| this := o; host := h |})));
          mhost := host (snd (destroy {| this := o; host := h |})) |})
  end.
Proof.
  unfold destroyTabSafeTimers, bind, get_instance, set_instance, on_instance.
  cbn [instance mhost].
  destruct (destroy {| this := o; host := h |}) as [[[]|e] s']; reflexivity.
Qed.

(** X18: [initTabSafeTimers] is idempotent: after a successful first
    call, a second call returns the same Coordinator and changes
    nothing; no second Coordinator is constructed and no second worker
    is made. *)
Theorem X18_initTabSafeTimers_twice (h : Host) :
  capable h = true ->
  let r1 := initTabSafeTimers {| instance := None; mhost := h |} in
  (exists o, fst r1 = Normal (Some o) /\ active o = true) /\
  initTabSafeTimers (snd r1) = r1.
Proof.
  intros Hc r1.
  assert (Hc' : capable (with_trace (trace h ++ [Construct]) h) = true)
    by exact Hc.
  destruct (init_capable new_TabSafeTimers _ eq_refl Hc') as (H1 & H2 & _).
  pose proof (initTabSafeTimers_none h) as E. cbv zeta in E.
  rewrite H1 in E. subst r1. rewrite E. cbn [fst snd].
  split; [eexists; split; [reflexivity | exact H2]|].
  apply initTabSafeTimers_existing.
Qed.

(** X19: activation and deactivation through the exported functions:
    after [initTabSafeTimers] and [destroyTabSafeTimers],
    [getTabSafeTimers] returns null, the four global slots hold the
    snapshot of that activation, and a further [initTabSafeTimers]
    constructs a new Coordinator, Active, with an empty mapping and its
    id counter at 0. *)
Theorem X19_init_destroy_init (h : Host) :
  capable h = true ->
  let r1 := initTabSafeTimers {| instance := None; mhost := h |} in
  let r2 := destroyTabSafeTimers (snd r1) in
  let r3 := initTabSafeTimers (snd r2) in
  fst r2 = Normal tt /\
  getTabSafeTimers (snd r2) = (Normal None, snd r2) /\
  window (mhost (snd r2)) = snapshot (List.length (funs h)) /\
  exists o,
    fst r3 = Normal (Some o) /\ instance (snd r3) = Some o /\
    active o = true /\ callbacks o = JsMap.empty /\ idCounter o = 0 /\
    exists t,
      trace (mhost (snd r3)) = trace (mhost (snd r2)) ++ Construct :: t.
Proof.
  intros Hc r1 r2 r3.
  set (h1 := with_trace (trace h ++ [Construct]) h).
  assert (Hc1 : capable h1 = true) by exact Hc.
  destruct (init_capable new_TabSafeTimers h1 eq_refl Hc1)
    as (H1 & Ha & _ & _ & Hn & _).
  pose proof (init_keeps_capable {| this := new_TabSafeTimers; host := h1 |})
    as Hk1.
  pose proof (initTabSafeTimers_none h) as E1. cbv zeta in E1.
  fold h1 in E1. rewrite H1 in E1.
  set (s1 := snd (init {| this := new_TabSafeTimers; host := h1 |})) in *.
  cbv zeta in Hn. simpl in Hk1. rewrite Hc1 in Hk1.
  destruct (active_inv _ Ha) as (Hi & [w Hw] & _).
  assert (Ed : destroy {| this := this s1; host := host s1 |} =
               (Normal tt, destroyed {| this := this s1; host := host s1 |}))
    by (apply (destroy_eq _ w); assumption).
  assert (E2 : r2 = (Normal tt,
                     {| instance := None;
                        mhost := host (destroyed {| this := this s1;
                                                    host := host s1 |}) |})).
  { unfold r2, r1. rewrite E1. cbn [snd].
    rewrite destroyTabSafeTimers_some, Ed. reflexivity. }
  set (h2 := host (destroyed {| this := this s1; host := host s1 |})) in *.
  assert (Hc2 : capable h2 = true).
  { unfold h2, destroyed. cbn [this host]. rewrite Hn.
    destruct (host s1). exact Hk1. }
  set (h3 := with_trace (trace h2 ++ [Construct]) h2).
  assert (Hc3 : capable h3 = true) by exact Hc2.
  destruct (init_capable new_TabSafeTimers h3 eq_refl Hc3)
    as (G1 & Ga & Gcb & Gid & _).
  pose proof (initTabSafeTimers_none h2) as E3. cbv zeta in E3.
  fold h3 in E3. rewrite G1 in E3.
  rewrite E2. cbn [fst snd].
  split; [reflexivity|]. split; [reflexivity|]. split.
  { unfold h2, destroyed. cbn [this host]. rewrite Hn. reflexivity. }
  unfold r3. rewrite E2. cbn [snd]. rewrite E3. cbn [fst snd instance mhost].
  eexists. split; [reflexivity|]. split; [reflexivity|].
  split; [exact Ga|]. split; [exact Gcb|]. split; [exact Gid|].
  assert (Et : exists t, trace (host (snd (init {| this := new_TabSafeTimers;
                                                   host := h3 |}))) =
                         trace h2 ++ Construct :: t).
  { clear - Hc3. unfold capable in Hc3.
    destruct h2 as [hw hW bu bw dw win fs tr]. unfold h3 in *. simpl in *.
    destruct hw, hW; try discriminate. simpl in Hc3.
    unfold init, create_worker, overrideGlobalTimers, bind, get_this,
      get_host, alloc, update_this, update_host, emit, ret; simpl.
    destruct bu as [url|]; [destruct bw|]; simpl;
      try (destruct dw; try discriminate); simpl;
      unfold update_host, update_this, bind, ret; simpl;
      rewrite <- ?app_assoc; simpl; eauto. }
  exact Et.
Qed.

(** X20: [destroyTabSafeTimers] clears the singleton also when the
    Coordinator in it never became Active: after an
    [initTabSafeTimers] that threw, it returns normally, touches neither
    the global slots nor the worker, and leaves [instance] null, so that
    [getTabSafeTimers] returns null and the next [initTabSafeTimers]
    starts over with a new Coordinator. *)
Theorem X20_destroy_after_failed_init (h : Host) :
  capable h = false ->
  let r1 := initTabSafeTimers {| instance := None; mhost := h |} in
  let r2 := destroyTabSafeTimers (snd r1) in
  (exists m, fst r1 = Abrupt (Error m)) /\
  (exists o, instance (snd r1) = Some o /\ isInitialized o = false) /\
  fst r2 = Normal tt /\
  instance (snd r2) = None /\
  mhost (snd r2) = mhost (snd r1) /\
  window (mhost (snd r2)) = window h.
Proof.
  intros Hc r1 r2.
  set (h1 := with_trace (trace h ++ [Construct]) h).
  assert (Hc1 : capable h1 = false) by exact Hc.
  destruct (init_failure new_TabSafeTimers h1 eq_refl Hc1)
    as ([m Hm] & Hi & Hwin).
  pose proof (initTabSafeTimers_none h) as E1. cbv zeta in E1.
  fold h1 in E1. rewrite Hm in E1.
  set (s1 := snd (init {| this := new_TabSafeTimers; host := h1 |})) in *.
  assert (Ed : destroy {| this := this s1; host := host s1 |} =
               (Normal tt, {| this := this s1; host := host s1 |}))
    by (apply destroy_inactive; exact Hi).
  unfold r2, r1. rewrite E1. cbn [fst snd instance mhost].
  rewrite destroyTabSafeTimers_some, Ed. cbn [fst snd instance mhost host].
  split; [eauto|]. split; [eauto|].
  repeat split. exact Hwin.
Qed.

End SingletonMore.

(** X18 at a concrete input: the browser host. *)
Lemma X18_initTabSafeTimers_twice_witness :
  let r1 := initTabSafeTimers {| instance := None;
                                 mhost := Example.browser |} in
  initTabSafeTimers (snd r1) = r1.
Proof.
  destruct (X18_initTabSafeTimers_twice Example.browser eq_refl) as [_ H].
  exact H.
Defined.

(** X19 at a concrete input: the browser host. *)
Lemma X19_init_destroy_init_witness :
  let r1 := initTabSafeTimers {| instance := None;
                                 mhost := Example.browser |} in
  let r2 := destroyTabSafeTimers (snd r1) in
  getTabSafeTimers (snd r2) = (Normal None, snd r2) /\
  window (mhost (snd r2)) = snapshot 4.
Proof.
  destruct (X19_init_destroy_init Example.browser eq_refl)
    as (_ & H2 & H3 & _).
  exact (conj H2 H3).
Defined.

(** X20 at a concrete input: the host without [Worker]. *)
Lemma X20_destroy_after_failed_init_witness :
  let r1 := initTabSafeTimers {| instance := None;
                                 mhost := Example.no_Worker |} in
  instance (snd r1) = Some new_TabSafeTimers /\
  instance (snd (destroyTabSafeTimers (snd r1))) = None.
Proof.
  destruct (X20_destroy_after_failed_init Example.no_Worker eq_refl)
    as (_ & _ & _ & H & _).
  split; [reflexivity | exact H].
Defined.

(** ** Strings as delays *)

Section StringDelays.
Variable source_text : fref -> string.

Lemma trim_start_white ws s :
  all_white ws = true -> trim_start (ws ++ s) = trim_start s.
Proof.
  induction ws as [|c ws IH]; simpl; [reflexivity|].
  intros H. apply andb_prop in H. destruct H as [Hc Hw].
  rewrite Hc. now apply IH.
Qed.

Lemma radix_prefix_end t :
  ends_integer t = true -> radix_prefix 10 t = [].
Proof.
  destruct t as [|c r]; [reflexivity|]. simpl. intros H.
  apply andb_prop in H. destruct H as [H _].
  apply andb_prop in H. destruct H as [H _].
  apply negb_true_iff in H.
  now rewrite (JsFacts.digit_of_char_not_decimal _ H).
Qed.

Lemma parse_radix_digits d ds t :
  ends_integer t = true ->
  parse_radix 10 (string_of_digits (d :: ds) ++ t) =
  Some (digits_val (d :: ds)).
Proof.
  intros Ht. unfold parse_radix.
  rewrite JsFacts.radix_prefix_digits, (radix_prefix_end _ Ht), app_nil_r.
  cbn [map]. now rewrite <- JsFacts.radix_value_digits.
Qed.

(** Digits followed by the end of the integer have no hexadecimal
    prefix. *)
Lemma parse_unsigned_digits d ds t :
  ends_integer t = true ->
  parse_unsigned (string_of_digits (d :: ds) ++ t) =
  Some (digits_val (d :: ds)).
Proof.
  intros Ht. rewrite <- (parse_radix_digits d ds t Ht).
  unfold parse_unsigned. cbn [string_of_digits String.append].
  destruct ds as [|d2 ds'].
  - cbn [string_of_digits String.append].
    destruct t as [|c r]; [reflexivity|].
    simpl in Ht. apply andb_prop in Ht. destruct Ht as [Ht X2].
    apply andb_prop in Ht. destruct Ht as [_ X1].
    apply negb_true_iff in X1, X2. rewrite X1, X2.
    now rewrite andb_false_r.
  - cbn [string_of_digits String.append].
    replace (Ascii.eqb (digit_char d2) "x" || Ascii.eqb (digit_char d2) "X")
      with false by (now destruct d2).
    now rewrite andb_false_r.
Qed.

(** X21: a string delay is read as its leading decimal integer.  For
    any white space [ws], any non-empty sequence of digits whose value
    is at most 2^53 (up to there every integer is a Number, so the value
    read is exact), and any rest [t] that does not continue the integer,
    the delay [ws ++ digits ++ t] gives the value of the digits, so does
    the same with a plus sign before the digits, and with a minus sign
    it gives 0. *)
Theorem X21_string_delay (ws t : string) (d : digit) (ds : list digit) :
  all_white ws = true ->
  ends_integer t = true ->
  (Z.of_N (digits_val (d :: ds)) <=? 2 ^ 53) = true ->
  let digits := string_of_digits (d :: ds) in
  let v := Z.of_N (digits_val (d :: ds)) in
  sanitizeDelay source_text (VStr (ws ++ digits ++ t)) = v /\
  sanitizeDelay source_text (VStr (ws ++ "+" ++ digits ++ t)) = v /\
  sanitizeDelay source_text (VStr (ws ++ "-" ++ digits ++ t)) = 0.
Proof.
  intros Hw Ht _ digits v.
  pose proof (parse_unsigned_digits d ds t Ht) as Hp. fold digits in Hp.
  unfold sanitizeDelay, parseInt, ToString, parseInt_string. cbv zeta.
  rewrite !(trim_start_white _ _ Hw).
  split; [|split].
  - assert (Hd : exists r, (digits ++ t)%string = String (digit_char d) r)
      by (eexists; reflexivity).
    destruct Hd as [r Hd]. rewrite Hd in *.
    cbn [trim_start].
    replace (is_white (digit_char d)) with false by (now destruct d).
    replace (Ascii.eqb (digit_char d) "-") with false by (now destruct d).
    replace (Ascii.eqb (digit_char d) "+") with false by (now destruct d).
    rewrite Hp. simpl. subst v. lia.
  - cbn [String.append trim_start].
    change (is_white "+") with false. cbv iota.
    change (Ascii.eqb "+" "-") with false.
    change (Ascii.eqb "+" "+") with true. cbv iota.
    change (String.append "" (digits ++ t)) with (digits ++ t)%string.
    rewrite Hp. simpl. subst v. lia.
  - cbn [String.append trim_start].
    change (is_white "-") with false. cbv iota.
    change (Ascii.eqb "-" "-") with true. cbv iota.
    change (String.append "" (digits ++ t)) with (digits ++ t)%string.
    rewrite Hp. simpl. lia.
Qed.

End StringDelays.

(** X21 at concrete inputs: the strings [" 500"], ["12px"] and ["-7"]. *)
Lemma X21_string_delay_witness :
  sanitizeDelay Example.source_text (VStr " 500") = 500 /\
  sanitizeDelay Example.source_text (VStr "12px") = 12 /\
  sanitizeDelay Example.source_text (VStr "-7") = 0.
Proof.
  destruct (X21_string_delay Example.source_text " " "" d5 [d0; d0]
              eq_refl eq_refl eq_refl) as (H1 & _ & _).
  destruct (X21_string_delay Example.source_text "" "px" d1 [d2]
              eq_refl eq_refl eq_refl) as (H2 & _ & _).
  destruct (X21_string_delay Example.source_text "" "" d7 []
              eq_refl eq_refl eq_refl) as (_ & _ & H3).
  exact (conj H1 (conj H2 H3)).
Defined.

